(** * Unicycler read aligner: [seqan_align.cpp]

    A shallow embedding of the alignment orchestration code of
    [src/seqan_align.cpp] and the properties of it that the design
    document states.

    Conventions of the embedding.
    - [std::string] sequences are [list ascii]; names are [string].
    - [int] values are [Z]; the constants of [settings.h] are fields of a
      [Settings] record, and every [int] computed from them stays far below
      2^31 when [MAX_BAND_SIZE] does, so no wrap-around is written out.
    - [double] and [float] scores are rationals ([Q]): the scores are finite
      values, on which the comparisons of the code are those of [Q].
    - The classes the file only uses ([KmerPositions], [CommonKmerSet],
      [AlignmentLine], [SemiGlobalAlignment]) and the SeqAn primitives are
      taken as a record of functions, [Collaborators]. *)

From Stdlib Require Import ZArith QArith Lia Lqa Ascii String List Bool.
From Stdlib Require Import Sorted Permutation.
From stdpp Require Import base option list gmap strings pretty.

Local Open Scope Z_scope.

(** ** Reverse complement *)

Module ReverseComplement.

Local Open Scope char_scope.

Definition push_back (s : list ascii) (c : ascii) : list ascii := s ++ [c].

(** The [switch] of [getReverseComplement]: nineteen cases, no default. *)
Definition switchLetter (letter : ascii) (reverseComplement : list ascii)
  : list ascii :=
  match letter with
  | "A" => push_back reverseComplement "T"
  | "T" => push_back reverseComplement "A"
  | "G" => push_back reverseComplement "C"
  | "C" => push_back reverseComplement "G"
  | "R" => push_back reverseComplement "Y"
  | "Y" => push_back reverseComplement "R"
  | "S" => push_back reverseComplement "S"
  | "W" => push_back reverseComplement "W"
  | "K" => push_back reverseComplement "M"
  | "M" => push_back reverseComplement "K"
  | "B" => push_back reverseComplement "V"
  | "D" => push_back reverseComplement "H"
  | "H" => push_back reverseComplement "D"
  | "V" => push_back reverseComplement "B"
  | "N" => push_back reverseComplement "N"
  | "." => push_back reverseComplement "."
  | "-" => push_back reverseComplement "-"
  | "?" => push_back reverseComplement "?"
  | "*" => push_back reverseComplement "*"
  | _ => reverseComplement
  end.

(** [for (int i = sequence.length() - 1; i >= 0; --i)]: [n] is [i + 1],
    the number of letters still to visit; [sequence[i]] is always in
    range.  The length of a sequence fits an [int]. *)
Fixpoint reverseLoop (sequence : list ascii) (n : nat)
         (reverseComplement : list ascii) : list ascii :=
  match n with
  | O => reverseComplement
  | S i =>
      match sequence !! i with
      | Some letter =>
          reverseLoop sequence i (switchLetter letter reverseComplement)
      | None => reverseLoop sequence i reverseComplement
      end
  end.

Definition getReverseComplement (sequence : list ascii) : list ascii :=
  reverseLoop sequence (length sequence) [].

(** The complement table as the design document gives it: the four
    bases, the IUPAC ambiguity codes and the placeholder symbols. *)
Definition iupacComplement (c : ascii) : option ascii :=
  if Ascii.eqb c "A" then Some "T" else
  if Ascii.eqb c "T" then Some "A" else
  if Ascii.eqb c "G" then Some "C" else
  if Ascii.eqb c "C" then Some "G" else
  if Ascii.eqb c "R" then Some "Y" else
  if Ascii.eqb c "Y" then Some "R" else
  if Ascii.eqb c "S" then Some "S" else
  if Ascii.eqb c "W" then Some "W" else
  if Ascii.eqb c "K" then Some "M" else
  if Ascii.eqb c "M" then Some "K" else
  if Ascii.eqb c "B" then Some "V" else
  if Ascii.eqb c "V" then Some "B" else
  if Ascii.eqb c "D" then Some "H" else
  if Ascii.eqb c "H" then Some "D" else
  if Ascii.eqb c "N" then Some "N" else
  if Ascii.eqb c "." then Some "." else
  if Ascii.eqb c "-" then Some "-" else
  if Ascii.eqb c "?" then Some "?" else
  if Ascii.eqb c "*" then Some "*" else None.

(** The nineteen symbols of the complement table. *)
Definition handledSymbols : list ascii :=
  ["A"; "T"; "G"; "C"; "R"; "Y"; "S"; "W"; "K"; "M";
   "B"; "D"; "H"; "V"; "N"; "."; "-"; "?"; "*"].

Definition recognized (c : ascii) : Prop := In c handledSymbols.

Definition recognizedb (c : ascii) : bool :=
  existsb (Ascii.eqb c) handledSymbols.

End ReverseComplement.

(** ** Data of the alignment pipeline *)

Module Model.

(** [std::numeric_limits<double>::min()]: the smallest positive normal
    double, 2^-1022. *)
Definition DBL_MIN : Q := 1 # (2 ^ 1022).

(** [a < b] on scores. *)
Definition Qltb (a b : Q) : bool := negb (Qle_bool b a).

(** [std::max(a, b)], which is [(a < b) ? b : a]. *)
Definition std_max (a b : Q) : Q := if Qltb a b then b else a.

(** The constants of [settings.h] that [seqan_align.cpp] reads. *)
Record Settings : Type := {
  COMMON_KMER_BAND_SIZE : Z;
  MINIMUM_MAX_SCORE : Q;
  STARTING_BAND_SIZE : Z;
  MAX_BAND_SIZE : Z;
  LOW_SCORE_THRESHOLD_LEVEL_1 : Q;
  HIGH_SCORE_THRESHOLD_LEVEL_1 : Q;
  MERGE_DISTANCE_LEVEL_1 : Q;
  MIN_ALIGNMENT_LENGTH_LEVEL_1 : Q;
  MIN_POINT_COUNT_LEVEL_1 : Z;
  LOW_SCORE_THRESHOLD_LEVEL_2 : Q;
  HIGH_SCORE_THRESHOLD_LEVEL_2 : Q;
  MERGE_DISTANCE_LEVEL_2 : Q;
  MIN_ALIGNMENT_LENGTH_LEVEL_2 : Q;
  MIN_POINT_COUNT_LEVEL_2 : Z;
  LOW_SCORE_THRESHOLD_LEVEL_3 : Q;
  HIGH_SCORE_THRESHOLD_LEVEL_3 : Q;
  MERGE_DISTANCE_LEVEL_3 : Q;
  MIN_ALIGNMENT_LENGTH_LEVEL_3 : Q;
  MIN_POINT_COUNT_LEVEL_3 : Z
}.

(** [Score<int, Simple>(match, mismatch, gapExtend, gapOpen)]. *)
Record Score : Type := mkScore {
  data_match : Z;
  data_mismatch : Z;
  data_gap_extend : Z;
  data_gap_open : Z
}.

(** The fields of [AlignmentLine] the file reads; a seed is the pair of
    its begin and end positions in the read and in the reference. *)
Record AlignmentLine : Type := mkLine {
  m_trimmedRefStart : Z;
  m_trimmedRefEnd : Z;
  m_bridgedSeedChain : list (Z * Z * Z * Z)
}.

(** What the file reads of a [SemiGlobalAlignment]: its scaled score and
    the three texts it prints ([m_cigar], [getShortDisplayString()],
    [getFullString()]).  The time stamp [m_milliseconds] is left out. *)
Record SemiGlobalAlignment : Type := mkAlignment {
  m_scaledScore : Q;
  m_cigar : string;
  getShortDisplayString : string;
  getFullString : string
}.

Record CommonKmerSet : Type := mkCommonKmerSet {
  m_readName : string;
  m_refName : string;
  m_maxScore : Q
}.

(** Modelled from the spec: the class [KmerPositions] (the shared index)
    is not part of the file.  The design document describes it as a
    mapping from sequence name to sequence with [namesOfAllEntries],
    [lengthOf], [sequenceOf], [insert(name, sequence)] and
    [remove(name)]; each acts on the entry of the name it is given. *)
Abbreviation KmerPositions := (gmap string (list ascii)).

(** Modelled from the spec: [KmerPositions::getAllNames], the names of
    all entries. *)
Definition getAllNames (kmerPositions : KmerPositions) : list string :=
  (map_to_list kmerPositions).*1.

(** Modelled from the spec: [KmerPositions::addPositions], the insertion
    of a sequence under a name. *)
Definition addPositions (name : string) (sequence : list ascii)
           (kmerPositions : KmerPositions) : KmerPositions :=
  <[name := sequence]> kmerPositions.

(** Modelled from the spec: [KmerPositions::deletePositions], the removal
    of the entry of a name. *)
Definition deletePositions (name : string)
           (kmerPositions : KmerPositions) : KmerPositions :=
  delete name kmerPositions.

(** Modelled from the spec: [KmerPositions::getLength], the length of the
    sequence stored under a name. *)
Definition getLength (kmerPositions : KmerPositions) (name : string) : Z :=
  match kmerPositions !! name with
  | Some sequence => Z.of_nat (length sequence)
  | None => 0
  end.

(** Modelled from the spec: [KmerPositions::getSequence], the sequence
    stored under a name; the code receives a pointer to it. *)
Definition getSequence (kmerPositions : KmerPositions) (name : string)
  : option (list ascii) := kmerPositions !! name.

(** The code the file calls and does not define.
    - [commonKmerMaxScore]: the [m_maxScore] that the constructor
      [CommonKmerSet(readName, refName, readLength, refLength, bandSize,
      expectedSlope, kmerPositions)] computes.
    - [findAlignmentLines]: the lines found and the text appended to the
      console output.
    - [buildSeedChain]: the success flag and the line as the call leaves
      it.
    - [bandedChainAlignment]: the body of the [try] block, SeqAn's
      [bandedChainAlignment] on the read and the trimmed reference (both
      as [Dna5String]) with the seed chain of the line and free end gaps
      on all four sides, followed by the [SemiGlobalAlignment]
      constructor; [None] when an exception is thrown.
    - [needsMoreSensitiveAlignment], [readHasUnalignedParts]: the two
      coverage checks of the escalation. *)
Record Collaborators : Type := {
  commonKmerMaxScore :
    string -> string -> Z -> Z -> Z -> Q -> KmerPositions -> Q;
  findAlignmentLines :
    CommonKmerSet -> Z -> Z -> Z -> Q -> Q -> Q
    -> list AlignmentLine * string;
  buildSeedChain : AlignmentLine -> Z -> Q -> bool * AlignmentLine;
  bandedChainAlignment :
    list ascii -> list ascii -> AlignmentLine -> Score -> Z
    -> option SemiGlobalAlignment;
  needsMoreSensitiveAlignment : list SemiGlobalAlignment -> Q -> bool;
  readHasUnalignedParts : list SemiGlobalAlignment -> bool
}.

(** One call of the banded primitive: the band size the loop asked for,
    the band size handed to SeqAn, and what came back. *)
Record Attempt : Type := mkAttempt {
  requested : Z;
  passed : Z;
  outcome : option SemiGlobalAlignment
}.

(** A record of the calls made, kept beside the computation. *)
Inductive Event : Type :=
| LevelStarted (sensitivityLevel : Z) (constants : Q * Q * Q * Q * Z)
| LinesFound (i : nat) (commonKmerSet : CommonKmerSet)
             (lowScoreThreshold highScoreThreshold mergeDistance : Q)
             (alignmentLines : list AlignmentLine)
| SeedChainTried (i j : nat) (line : AlignmentLine)
                 (minPointCount : Z) (minAlignmentLength : Q)
                 (seedChainSuccess : bool)
| BandTried (attempt : Attempt).

(** How a call ends. *)
Inductive Outcome (A : Type) : Type :=
| Returns (a : A)
| Undefined   (* a vector is indexed out of range, or a null pointer read *)
| Throws      (* [substr] throws [std::out_of_range], caught nowhere *)
| Diverges.   (* the [while (true)] loop does not end *)
Arguments Returns {A} a.
Arguments Undefined {A}.
Arguments Throws {A}.
Arguments Diverges {A}.

#[global] Instance Outcome_ret : MRet Outcome := @Returns.
#[global] Instance Outcome_bind : MBind Outcome := fun A B k m =>
  match m with
  | Returns a => k a
  | Undefined => Undefined
  | Throws => Throws
  | Diverges => Diverges
  end.

Definition newline : string := String "010"%char EmptyString.

(** [std::to_string(int)]. *)
Definition to_string (n : Z) : string := pretty n.

(** [s.substr(pos, n)] with [int] arguments converted to [size_t]: a
    negative [pos] is beyond the end and a negative [n] reaches the end. *)
Definition substr (s : list ascii) (pos n : Z) : option (list ascii) :=
  if (pos <? 0) || (Z.of_nat (length s) <? pos) then None
  else Some (if n <? 0 then drop (Z.to_nat pos) s
             else take (Z.to_nat n) (drop (Z.to_nat pos) s)).

(** [cppStringToCString]: the characters copied into a fresh buffer. *)
Definition cppStringToCString (cpp_string : string) : string := cpp_string.

End Model.

(** ** The functions of [seqan_align.cpp] *)

Module Align.
Import Model ReverseComplement.

Local Open Scope string_scope.
Local Open Scope list_scope.

Section WithCollaborators.

Variable cfg : Settings.
Variable ext : Collaborators.

Definition semiGlobalAlignmentOneLineOneBand
           (readSeq : list ascii) (readLen : Z)
           (refSeq : list ascii) (refLen : Z)
           (line : AlignmentLine) (bandSize : Z)
           (verbosity : Z) (output : string) (scoringScheme : Score)
  : option SemiGlobalAlignment * string * Attempt :=
  let shortestSeqLen := Z.min readLen refLen in
  let clamped :=
    if bandSize >? shortestSeqLen then shortestSeqLen else bandSize in
  match bandedChainAlignment ext readSeq refSeq line scoringScheme
                             clamped with
  | Some sgAlignment =>
      let output :=
        if verbosity >? 2
        then output +:+ "  " +:+ getShortDisplayString sgAlignment
                    +:+ ", band size = " +:+ to_string clamped
                    +:+ newline
        else output in
      let output :=
        if verbosity >? 3
        then output +:+ "    " +:+ m_cigar sgAlignment +:+ newline
        else output in
      (Some sgAlignment, output,
       mkAttempt bandSize clamped (Some sgAlignment))
  | None =>
      let output :=
        if verbosity >? 2
        then output +:+ "  Alignment failed, bandwidth = "
                    +:+ to_string clamped +:+ newline
        else output in
      (None, output, mkAttempt bandSize clamped None)
  end.

(** The [while (true)] loop of [semiGlobalAlignmentOneLine]; [fuel]
    bounds the number of turns, [None] is fuel run out. *)
Fixpoint refinementLoop (fuel : nat)
         (readSeq : list ascii) (readLength : Z)
         (refSeq : list ascii) (trimmedRefLength : Z)
         (line : AlignmentLine) (verbosity : Z) (scoringScheme : Score)
         (bandSize : Z) (bestAlignment : option SemiGlobalAlignment)
         (bestAlignmentScore : Q) (output : string)
  : option (option SemiGlobalAlignment * string * list Attempt) :=
  match fuel with
  | O => None
  | S fuel' =>
      let '(alignment, output, attempt) :=
        semiGlobalAlignmentOneLineOneBand
          readSeq readLength refSeq trimmedRefLength line bandSize
          verbosity output scoringScheme in
      let next best bestScore :=
        let bandSize := bandSize * 2 in
        if bandSize >? MAX_BAND_SIZE cfg
        then Some (best, output, [attempt])
        else
          match refinementLoop fuel' readSeq readLength refSeq
                               trimmedRefLength line verbosity
                               scoringScheme bandSize best bestScore
                               output with
          | Some (result, output, attempts) =>
              Some (result, output, attempt :: attempts)
          | None => None
          end in
      match alignment with
      | Some found =>
          let alignmentScore := m_scaledScore found in
          if Qle_bool alignmentScore bestAlignmentScore
          then Some (bestAlignment, output, [attempt])
          else next (Some found) alignmentScore
      | None => next bestAlignment bestAlignmentScore
      end
  end.

(** Turns that always suffice when [STARTING_BAND_SIZE] is positive. *)
Definition bandFuel : nat := S (Z.to_nat (MAX_BAND_SIZE cfg)).

Definition semiGlobalAlignmentOneLine
           (readSeq refSeq : list ascii) (line : AlignmentLine)
           (verbosity : Z) (output : string) (scoringScheme : Score)
  : Outcome (option SemiGlobalAlignment * string * list Attempt) :=
  let trimmedRefLength := m_trimmedRefEnd line - m_trimmedRefStart line in
  match substr refSeq (m_trimmedRefStart line) trimmedRefLength with
  | None => Throws
  | Some trimmedRefSeq =>
      let readLength := Z.of_nat (length readSeq) in
      let bandSize := STARTING_BAND_SIZE cfg in
      match refinementLoop bandFuel readSeq readLength trimmedRefSeq
                           trimmedRefLength line verbosity scoringScheme
                           bandSize None DBL_MIN output with
      | Some result => Returns result
      | None => Diverges
      end
  end.

(** The constants chosen by the [if] chain on [sensitivityLevel]:
    low and high score threshold, merge distance, minimum alignment
    length, minimum point count. *)
Definition levelConstants (sensitivityLevel : Z) : Q * Q * Q * Q * Z :=
  if (sensitivityLevel =? 1)%Z then
    (LOW_SCORE_THRESHOLD_LEVEL_1 cfg, HIGH_SCORE_THRESHOLD_LEVEL_1 cfg,
     MERGE_DISTANCE_LEVEL_1 cfg, MIN_ALIGNMENT_LENGTH_LEVEL_1 cfg,
     MIN_POINT_COUNT_LEVEL_1 cfg)
  else if (sensitivityLevel =? 2)%Z then
    (LOW_SCORE_THRESHOLD_LEVEL_2 cfg, HIGH_SCORE_THRESHOLD_LEVEL_2 cfg,
     MERGE_DISTANCE_LEVEL_2 cfg, MIN_ALIGNMENT_LENGTH_LEVEL_2 cfg,
     MIN_POINT_COUNT_LEVEL_2 cfg)
  else
    (LOW_SCORE_THRESHOLD_LEVEL_3 cfg, HIGH_SCORE_THRESHOLD_LEVEL_3 cfg,
     MERGE_DISTANCE_LEVEL_3 cfg, MIN_ALIGNMENT_LENGTH_LEVEL_3 cfg,
     MIN_POINT_COUNT_LEVEL_3 cfg).

(** [for (size_t j = 0; j < alignmentLines.size(); ++j)], with [n] the
    turns left.  The body reads [alignmentLines[i]], [i] being the
    index of the enclosing loop; [buildSeedChain] updates that line in
    place. *)
Fixpoint linesLoop (n : nat) (j : nat) (i : nat)
         (readSeq refSeq : list ascii)
         (minPointCount : Z) (minAlignmentLength : Q)
         (verbosity : Z) (scoringScheme : Score)
         (alignmentLines : list AlignmentLine)
         (alignments : list SemiGlobalAlignment) (output : string)
  : Outcome (list SemiGlobalAlignment * string * list Event) :=
  match n with
  | O => Returns (alignments, output, [])
  | S n' =>
      match alignmentLines !! i with
      | None => Undefined
      | Some line =>
          let '(seedChainSuccess, line) :=
            buildSeedChain ext line minPointCount minAlignmentLength in
          let alignmentLines := <[i := line]> alignmentLines in
          let tried :=
            SeedChainTried i j line minPointCount minAlignmentLength
                           seedChainSuccess in
          if seedChainSuccess then
            '(alignment, output, attempts) ←
              semiGlobalAlignmentOneLine readSeq refSeq line verbosity
                                         output scoringScheme;
            let alignments :=
              match alignment with
              | Some found => alignments ++ [found]
              | None => alignments
              end in
            '(alignments, output, events) ←
              linesLoop n' (S j) i readSeq refSeq minPointCount
                        minAlignmentLength verbosity scoringScheme
                        alignmentLines alignments output;
            Returns (alignments, output,
                     tried :: map BandTried attempts ++ events)
          else
            '(alignments, output, events) ←
              linesLoop n' (S j) i readSeq refSeq minPointCount
                        minAlignmentLength verbosity scoringScheme
                        alignmentLines alignments output;
            Returns (alignments, output, tried :: events)
      end
  end.

(** [for (size_t i = 0; i < commonKmerSets.size(); ++i)]: [rest] holds
    [commonKmerSets[i]] and what follows it. *)
Fixpoint setsLoop (rest : list CommonKmerSet) (i : nat)
         (kmerPositions : KmerPositions) (verbosity : Z)
         (lowScoreThreshold highScoreThreshold mergeDistance : Q)
         (minAlignmentLength : Q) (minPointCount : Z)
         (scoringScheme : Score)
         (alignments : list SemiGlobalAlignment) (output : string)
  : Outcome (list SemiGlobalAlignment * string * list Event) :=
  match rest with
  | [] => Returns (alignments, output, [])
  | commonKmerSet :: rest' =>
      let continue alignments output events :=
        '(alignments, output, later) ←
          setsLoop rest' (S i) kmerPositions verbosity lowScoreThreshold
                   highScoreThreshold mergeDistance minAlignmentLength
                   minPointCount scoringScheme alignments output;
        Returns (alignments, output, events ++ later) in
      if Qltb (m_maxScore commonKmerSet) highScoreThreshold
      then continue alignments output []
      else
        let readName := m_readName commonKmerSet in
        let refName := m_refName commonKmerSet in
        match getSequence kmerPositions readName,
              getSequence kmerPositions refName with
        | Some readSeq, Some refSeq =>
            let readLength := Z.of_nat (length readSeq) in
            let refLength := Z.of_nat (length refSeq) in
            let '(alignmentLines, printed) :=
              findAlignmentLines ext commonKmerSet readLength refLength
                                 verbosity lowScoreThreshold
                                 highScoreThreshold mergeDistance in
            let output := output +:+ printed in
            let found :=
              LinesFound i commonKmerSet lowScoreThreshold
                         highScoreThreshold mergeDistance
                         alignmentLines in
            if (length alignmentLines =? 0)%nat
            then continue alignments output [found]
            else
              '(alignments, output, events) ←
                linesLoop (length alignmentLines) 0 i readSeq refSeq
                          minPointCount minAlignmentLength verbosity
                          scoringScheme alignmentLines alignments
                          output;
              continue alignments output (found :: events)
        | _, _ => Undefined
        end
  end.

Definition semiGlobalAlignmentAllRefsOneLevel
           (commonKmerSets : list CommonKmerSet)
           (kmerPositions : KmerPositions)
           (verbosity : Z) (output : string)
           (matchScore mismatchScore gapOpenScore gapExtensionScore : Z)
           (sensitivityLevel : Z) (maxScoreAllSets : Q)
  : Outcome (list SemiGlobalAlignment * string * list Event) :=
  let '(lowScoreThreshold, highScoreThreshold, mergeDistance,
        minAlignmentLength, minPointCount) :=
    levelConstants sensitivityLevel in
  let lowScoreThreshold := (lowScoreThreshold * maxScoreAllSets)%Q in
  let highScoreThreshold := (highScoreThreshold * maxScoreAllSets)%Q in
  let scoringScheme :=
    mkScore matchScore mismatchScore gapExtensionScore gapOpenScore in
  '(alignments, output, events) ←
    setsLoop commonKmerSets 0 kmerPositions verbosity lowScoreThreshold
             highScoreThreshold mergeDistance minAlignmentLength
             minPointCount scoringScheme [] output;
  Returns (alignments, output,
           LevelStarted sensitivityLevel
                        (levelConstants sensitivityLevel) :: events).

(** One strand against one reference: the set is kept when its score
    reaches [MINIMUM_MAX_SCORE]. *)
Definition addCandidate (readName refName : string)
           (readLength refLength : Z) (expectedSlope : Q)
           (kmerPositions : KmerPositions)
           (acc : list CommonKmerSet * Q) : list CommonKmerSet * Q :=
  let '(commonKmerSets, maxScoreAllSets) := acc in
  let commonKmerSet :=
    mkCommonKmerSet readName refName
      (commonKmerMaxScore ext readName refName readLength refLength
                          (COMMON_KMER_BAND_SIZE cfg) expectedSlope
                          kmerPositions) in
  if Qltb (m_maxScore commonKmerSet) (MINIMUM_MAX_SCORE cfg)
  then (commonKmerSets, maxScoreAllSets)
  else (commonKmerSets ++ [commonKmerSet],
        std_max maxScoreAllSets (m_maxScore commonKmerSet)).

(** The loop over [referenceNames]. *)
Fixpoint candidatesLoop (referenceNames : list string)
         (posReadName negReadName : string) (readLength : Z)
         (expectedSlope : Q) (kmerPositions : KmerPositions)
         (acc : list CommonKmerSet * Q) : list CommonKmerSet * Q :=
  match referenceNames with
  | [] => acc
  | refName :: others =>
      let refLength := getLength kmerPositions refName in
      let acc := addCandidate posReadName refName readLength refLength
                              expectedSlope kmerPositions acc in
      let acc := addCandidate negReadName refName readLength refLength
                              expectedSlope kmerPositions acc in
      candidatesLoop others posReadName negReadName readLength
                     expectedSlope kmerPositions acc
  end.

(** [std::sort] with the comparison [a->m_maxScore > b->m_maxScore];
    sets of equal score, whose order the standard leaves open, keep
    theirs. *)
Fixpoint insertByMaxScore (x : CommonKmerSet) (l : list CommonKmerSet)
  : list CommonKmerSet :=
  match l with
  | [] => [x]
  | y :: l' =>
      if Qle_bool (m_maxScore y) (m_maxScore x) then x :: y :: l'
      else y :: insertByMaxScore x l'
  end.

Definition sortByMaxScore (l : list CommonKmerSet) : list CommonKmerSet :=
  foldr insertByMaxScore [] l.

(** The returned text: every alignment followed by a semicolon, then
    the console output. *)
Definition returnString (alignments : list SemiGlobalAlignment)
           (output : string) : string :=
  fold_left (fun acc alignment => acc +:+ getFullString alignment +:+ ";")
            alignments "" +:+ output.

(** The result is the returned buffer, the index as the call leaves it,
    and the record of calls. *)
Definition semiGlobalAlignmentAllRefs
           (readName : string) (readSeq : list ascii) (verbosity : Z)
           (expectedSlope : Q) (kmerPositions : KmerPositions)
           (matchScore mismatchScore gapOpenScore gapExtensionScore : Z)
           (lowScoreThreshold : Q)
  : Outcome (string * KmerPositions * list Event) :=
  let output := "" in
  let posReadName := readName +:+ "+" in
  let negReadName := readName +:+ "-" in
  let posReadSeq := readSeq in
  let negReadSeq := getReverseComplement posReadSeq in
  let readLength := Z.of_nat (length posReadSeq) in
  let referenceNames := getAllNames kmerPositions in
  let kmerPositions := addPositions posReadName posReadSeq kmerPositions in
  let kmerPositions := addPositions negReadName negReadSeq kmerPositions in
  let '(commonKmerSets, maxScoreAllSets) :=
    candidatesLoop referenceNames posReadName negReadName readLength
                   expectedSlope kmerPositions ([], 0%Q) in
  let commonKmerSets := sortByMaxScore commonKmerSets in
  '(alignments, output, events1) ←
    semiGlobalAlignmentAllRefsOneLevel
      commonKmerSets kmerPositions verbosity output matchScore
      mismatchScore gapOpenScore gapExtensionScore 1 maxScoreAllSets;
  '(alignments, output, events2) ←
    (if needsMoreSensitiveAlignment ext alignments lowScoreThreshold then
       '(l2Alignments, output, events2) ←
         semiGlobalAlignmentAllRefsOneLevel
           commonKmerSets kmerPositions verbosity output matchScore
           mismatchScore gapOpenScore gapExtensionScore 1
           maxScoreAllSets;
       let alignments := alignments ++ l2Alignments in
       if readHasUnalignedParts ext alignments then
         '(l3Alignments, output, events3) ←
           semiGlobalAlignmentAllRefsOneLevel
             commonKmerSets kmerPositions verbosity output matchScore
             mismatchScore gapOpenScore gapExtensionScore 1
             maxScoreAllSets;
         Returns (alignments ++ l3Alignments, output,
                  events2 ++ events3)
       else Returns (alignments, output, events2)
     else Returns (alignments, output, []));
  let kmerPositions := deletePositions readName kmerPositions in
  Returns (cppStringToCString (returnString alignments output),
           kmerPositions, events1 ++ events2).

End WithCollaborators.

End Align.

(** ** Notions of the design document *)

Module Spec.
Import Model.

(** "Only the best-scoring result survives": the retained alignment and
    its score after one more attempt.  A failed attempt changes nothing;
    a result replaces the retained one when it scores higher. *)
Definition retain (kept : option SemiGlobalAlignment * Q) (attempt : Attempt)
  : option SemiGlobalAlignment * Q :=
  match outcome attempt with
  | Some found =>
      if Qle_bool (m_scaledScore found) (snd kept) then kept
      else (Some found, m_scaledScore found)
  | None => kept
  end.

Definition retained (start : option SemiGlobalAlignment * Q)
           (attempts : list Attempt) : option SemiGlobalAlignment * Q :=
  fold_left retain attempts start.

(** The best score so far after the attempts [before]; with no result
    yet it is the value the accumulator starts from. *)
Definition bestScoreSoFar (before : list Attempt) : Q :=
  snd (retained (None, DBL_MIN) before).

(** The attempt produced a result that does not score above [best]. *)
Definition notImproving (best : Q) (attempt : Attempt) : Prop :=
  exists found, outcome attempt = Some found
                /\ (m_scaledScore found <= best)%Q.

Definition failed (attempt : Attempt) : Prop := outcome attempt = None.

(** The trimmed bounds of a line lie inside the reference. *)
Definition lineWithin (line : AlignmentLine) (refSeq : list ascii) : Prop :=
  0 <= m_trimmedRefStart line <= m_trimmedRefEnd line
  /\ m_trimmedRefEnd line <= Z.of_nat (length refSeq).

(** The starting band size is positive and below the ceiling. *)
Definition bandsWellFormed (cfg : Settings) : Prop :=
  0 < STARTING_BAND_SIZE cfg <= MAX_BAND_SIZE cfg.

(** The sensitivity levels the per-level driver was run with, each with
    the constants it selected, in order. *)
Definition levelsStarted (events : list Event)
  : list (Z * (Q * Q * Q * Q * Z)) :=
  omap (fun event =>
          match event with
          | LevelStarted sensitivityLevel constants =>
              Some (sensitivityLevel, constants)
          | _ => None
          end) events.

(** The lines the line finder returned for each candidate. *)
Definition linesFound (events : list Event)
  : list (nat * list AlignmentLine) :=
  omap (fun event =>
          match event with
          | LinesFound i _ _ _ _ alignmentLines => Some (i, alignmentLines)
          | _ => None
          end) events.

(** The seed chain builds: candidate [i], turn [j] of the inner loop,
    the trimmed start of the line that was used, the minimum point count
    asked for, and whether the build succeeded. *)
Definition chainsTried (events : list Event)
  : list (nat * nat * Z * Z * bool) :=
  omap (fun event =>
          match event with
          | SeedChainTried i j line minPointCount _ seedChainSuccess =>
              Some (i, j, m_trimmedRefStart line, minPointCount,
                    seedChainSuccess)
          | _ => None
          end) events.

(** The width asked for in turn [k]: the starting width doubled [k]
    times. *)
Definition doubled (start : Z) (k : nat) : Z := start * 2 ^ Z.of_nat k.

(** What one attempt at the width [b] satisfies: the width handed to the
    primitive is [b] cut down to the length of the shorter sequence, and
    the outcome is the primitive's at that width. *)
Definition attemptAt (primitive : Z -> option SemiGlobalAlignment)
           (shortest : Z) (b : Z) (attempt : Attempt) : Prop :=
  requested attempt = b
  /\ passed attempt = Z.min b shortest
  /\ outcome attempt = primitive (passed attempt).

(** The shape of a run of the refinement started at width [b] with the
    retained alignment and score [kept]: the widths double, the run ends
    at the first attempt that does not improve or whose doubled width
    passes the ceiling, and the result is the alignment retained. *)
Definition loopRun (primitive : Z -> option SemiGlobalAlignment)
           (shortest ceiling : Z) (b : Z)
           (kept : option SemiGlobalAlignment * Q)
           (attempts : list Attempt)
           (result : option SemiGlobalAlignment) : Prop :=
  attempts <> []
  /\ (forall k attempt, attempts !! k = Some attempt ->
        attemptAt primitive shortest (doubled b k) attempt
        /\ (S k = length attempts <->
            notImproving (snd (retained kept (take k attempts))) attempt
            \/ ceiling < 2 * requested attempt))
  /\ result = fst (retained kept attempts).

End Spec.

(** ** Sample data *)

Module Samples.
Import Model Align.

Local Open Scope string_scope.
Local Open Scope list_scope.

(** Values in the style of [settings.h]; each level is looser than the
    one before it. *)
Definition sampleSettings : Settings := {|
  COMMON_KMER_BAND_SIZE := 100;
  MINIMUM_MAX_SCORE := 5;
  STARTING_BAND_SIZE := 10;
  MAX_BAND_SIZE := 160;
  LOW_SCORE_THRESHOLD_LEVEL_1 := 1 # 2;
  HIGH_SCORE_THRESHOLD_LEVEL_1 := 7 # 10;
  MERGE_DISTANCE_LEVEL_1 := 50;
  MIN_ALIGNMENT_LENGTH_LEVEL_1 := 40;
  MIN_POINT_COUNT_LEVEL_1 := 4;
  LOW_SCORE_THRESHOLD_LEVEL_2 := 1 # 4;
  HIGH_SCORE_THRESHOLD_LEVEL_2 := 1 # 2;
  MERGE_DISTANCE_LEVEL_2 := 100;
  MIN_ALIGNMENT_LENGTH_LEVEL_2 := 20;
  MIN_POINT_COUNT_LEVEL_2 := 3;
  LOW_SCORE_THRESHOLD_LEVEL_3 := 1 # 10;
  HIGH_SCORE_THRESHOLD_LEVEL_3 := 1 # 4;
  MERGE_DISTANCE_LEVEL_3 := 200;
  MIN_ALIGNMENT_LENGTH_LEVEL_3 := 10;
  MIN_POINT_COUNT_LEVEL_3 := 2
|}.

(** A read of 200 bases and a reference that holds it between two runs
    of a hundred [T]. *)
Definition sampleRead : list ascii :=
  concat (repeat (list_ascii_of_string "ACGT") 50).

Definition sampleReference : list ascii :=
  repeat "T"%char 100 ++ sampleRead ++ repeat "T"%char 100.

Definition sampleIndex : KmerPositions := {[ "ref" := sampleReference ]}.

Definition lineA : AlignmentLine := mkLine 90 310 [].
Definition lineB : AlignmentLine := mkLine 0 220 [].
Definition lineC : AlignmentLine := mkLine 180 400 [].

(** Stand-ins for the collaborators.  The forward strand of the read
    named [read] scores 10 against every reference and has the lines
    [forwardLines]; the reverse strand scores [reverseScore] and has the
    lines [reverseLines].  A seed chain can be built when the line has
    [points] points or more and is long enough.  The banded primitive
    throws below width 15, scores 60 below width 30 and 90 from there on,
    times the match score. *)
Definition sampleCollaborators (reverseScore : Q)
           (forwardLines reverseLines : list AlignmentLine) (points : Z)
  : Collaborators := {|
  commonKmerMaxScore readName _ _ _ _ _ _ :=
    if String.eqb readName "read+" then 10%Q else reverseScore;
  findAlignmentLines commonKmerSet _ _ _ _ _ _ :=
    (if String.eqb (m_readName commonKmerSet) "read+"
     then forwardLines else reverseLines, "");
  buildSeedChain line minPointCount minAlignmentLength :=
    let span := m_trimmedRefEnd line - m_trimmedRefStart line in
    if (minPointCount <=? points)%Z
       && Qle_bool minAlignmentLength (inject_Z span)
    then (true, mkLine (m_trimmedRefStart line) (m_trimmedRefEnd line)
                       [(0, 0, span, span)])
    else (false, line);
  bandedChainAlignment _ _ line scoringScheme bandSize :=
    if (bandSize <? 15)%Z then None
    else
      let score := if (bandSize <? 30)%Z then 60 else 90 in
      Some (mkAlignment
              (inject_Z (score * data_match scoringScheme))
              "200M"
              ("ref " +:+ to_string (m_trimmedRefStart line))
              ("read,ref," +:+ to_string (m_trimmedRefStart line)
                           +:+ "," +:+ to_string bandSize));
  needsMoreSensitiveAlignment alignments lowScoreThreshold :=
    negb (existsb (fun alignment =>
                     Qle_bool lowScoreThreshold (m_scaledScore alignment))
                  alignments);
  readHasUnalignedParts alignments :=
    match alignments with [] => true | _ => false end
|}.

Definition sampleScore : Score := mkScore 1 (-1) (-1) (-2).

End Samples.

(** ** The boundary with the caller *)

Module Boundary.
Import Model.

Local Open Scope string_scope.

(** The terminator of a C string. *)
Definition NUL : ascii := "000"%char.

(** The buffer that [cppStringToCString] fills: [malloc] of
    [cpp_string.size() + 1] characters, the characters of the string
    copied in, and ['\0'] stored after them. *)
Definition cppStringToCString_buffer (cpp_string : string) : list ascii :=
  list_ascii_of_string cpp_string ++ [NUL].

(** [std::string name(nameC)]: the characters of a C string up to, not
    including, the first ['\0'], as the entry point reads [readNameC] and
    [readSeqC]. *)
Fixpoint std_string (c_string : list ascii) : string :=
  match c_string with
  | [] => ""
  | c :: rest =>
      if Ascii.eqb c NUL then "" else String c (std_string rest)
  end.

(** The string holds the character [c]. *)
Fixpoint holds (c : ascii) (s : string) : bool :=
  match s with
  | "" => false
  | String x rest => Ascii.eqb x c || holds c rest
  end.

(** The parts of a semicolon-delimited string, the way the comment at the
    end of [semiGlobalAlignmentAllRefs] describes the returned text: "the
    last part is the console output and the other parts are alignment
    description strings". *)
Fixpoint parts (s : string) : list string :=
  match s with
  | "" => [""]
  | String c rest =>
      if Ascii.eqb c ";"%char then "" :: parts rest
      else match parts rest with
           | [] => [String c ""]
           | first :: others => String c first :: others
           end
  end.

End Boundary.

(** ** Invariants of the loops *)

Module Invariants.
Import Model Align.


(** What holds of the candidates collected so far and of the running
    maximum. *)
Definition collected (cfg : Settings) (ext : Collaborators)
           (names : list string) (posReadName negReadName : string)
           (readLength : Z) (expectedSlope : Q)
           (kmerPositions : KmerPositions)
           (acc : list CommonKmerSet * Q) : Prop :=
  Forall (fun set =>
            (MINIMUM_MAX_SCORE cfg <= m_maxScore set)%Q
            /\ (m_maxScore set <= snd acc)%Q
            /\ (m_readName set = posReadName
                \/ m_readName set = negReadName)
            /\ In (m_refName set) names
            /\ m_maxScore set
               = commonKmerMaxScore ext (m_readName set) (m_refName set)
                   readLength (getLength kmerPositions (m_refName set))
                   (COMMON_KMER_BAND_SIZE cfg) expectedSlope kmerPositions)
         (fst acc)
  /\ (0 <= snd acc)%Q
  /\ (snd acc = 0%Q
      \/ exists set, In set (fst acc) /\ snd acc = m_maxScore set).

End Invariants.

Module ReverseComplementFacts.
Import ReverseComplement.

Lemma switchLetter_table letter acc :
  switchLetter letter acc = acc ++ option_list (iupacComplement letter).
Proof.
  destruct letter as [[] [] [] [] [] [] [] []]; cbn;
    unfold push_back; rewrite ?app_nil_r; reflexivity.
Qed.

Lemma recognizedb_spec c : recognizedb c = true <-> recognized c.
Proof.
  unfold recognizedb, recognized. rewrite existsb_exists. split.
  - intros (x & Hin & Heq). apply Ascii.eqb_eq in Heq. now subst.
  - intros Hin. exists c. split; [assumption | apply Ascii.eqb_refl].
Qed.

Lemma iupacComplement_recognized c :
  is_Some (iupacComplement c) <-> recognized c.
Proof.
  rewrite <- recognizedb_spec.
  destruct c as [[] [] [] [] [] [] [] []]; cbn; split;
    first [ reflexivity | intros [? ?]; discriminate | discriminate
          | intros _; eexists; reflexivity ].
Qed.

(** The loop visits positions [n-1], ..., [0] and appends what the switch
    yields for each. *)
Lemma reverseLoop_spec sequence n acc :
  (n <= length sequence)%nat ->
  reverseLoop sequence n acc
  = acc ++ rev (omap iupacComplement (take n sequence)).
Proof.
  revert acc. induction n as [|i IH]; intros acc Hn.
  - cbn. now rewrite app_nil_r.
  - cbn [reverseLoop].
    destruct (lookup_lt_is_Some_2 sequence i) as [letter Hl]; [lia|].
    rewrite Hl, IH by lia.
    rewrite (take_S_r _ _ _ Hl), omap_app, rev_app_distr.
    rewrite switchLetter_table.
    change (omap iupacComplement [letter])
      with (option_list (iupacComplement letter)).
    generalize (iupacComplement letter) as o. intros [c|]; cbn.
    + now rewrite <- app_assoc.
    + now rewrite app_nil_r.
Qed.

Lemma getReverseComplement_spec sequence :
  getReverseComplement sequence = rev (omap iupacComplement sequence).
Proof.
  unfold getReverseComplement.
  rewrite reverseLoop_spec by lia. now rewrite firstn_all.
Qed.

Lemma omap_length_le {A B} (f : A -> option B) l :
  (length (omap f l) <= length l)%nat.
Proof.
  induction l as [|x l IH]; cbn; [lia|]. destruct (f x); cbn; lia.
Qed.

Lemma omap_length_eq {A B} (f : A -> option B) l :
  length (omap f l) = length l <-> Forall (fun x => is_Some (f x)) l.
Proof.
  induction l as [|x l IH]; cbn; [split; auto|].
  pose proof (omap_length_le f l) as Hle.
  destruct (f x) as [y|] eqn:Hx; cbn; split.
  - intros H. constructor; [rewrite Hx; eauto | apply IH; lia].
  - intros H. inversion H; subst. f_equal. now apply IH.
  - intros H. lia.
  - intros H. inversion H as [|? ? [? Hs] _]; subst. congruence.
Qed.

Lemma omap_rev {A B} (f : A -> option B) l :
  omap f (rev l) = rev (omap f l).
Proof.
  induction l as [|x l IH]; [reflexivity|].
  cbn [rev]. rewrite omap_app, IH. cbn.
  destruct (f x); cbn; [reflexivity | now rewrite app_nil_r].
Qed.

Lemma iupacComplement_involutive c d :
  iupacComplement c = Some d -> iupacComplement d = Some c.
Proof.
  destruct c as [[] [] [] [] [] [] [] []]; cbn; intros H;
    first [discriminate | injection H as <-; reflexivity].
Qed.

Lemma complement_twice s :
  Forall recognized s -> omap iupacComplement (omap iupacComplement s) = s.
Proof.
  induction 1 as [|c s Hc _ IH]; [reflexivity|].
  apply iupacComplement_recognized in Hc as [d Hd].
  cbn. rewrite Hd. cbn.
  rewrite (iupacComplement_involutive _ _ Hd). cbn.
  f_equal. exact IH.
Qed.

Lemma getReverseComplement_same_length s :
  length (getReverseComplement s) = length s <-> Forall recognized s.
Proof.
  rewrite getReverseComplement_spec, length_rev, omap_length_eq.
  apply Forall_iff. intros c. apply iupacComplement_recognized.
Qed.

End ReverseComplementFacts.

(** ** Properties of the reverse complement *)

Module ReverseComplementClaims.
Import ReverseComplement ReverseComplementFacts.

(** C10.  The reverse complement is never longer than its input, and it
    is as long exactly when every letter is one of the nineteen symbols
    of the switch; a letter outside them adds nothing to the output. *)
Theorem reverse_complement_length s :
  (length (getReverseComplement s) <= length s)%nat
  /\ (length (getReverseComplement s) = length s <-> Forall recognized s)
  /\ (forall before c after,
        s = before ++ c :: after -> ~ recognized c ->
        getReverseComplement s = getReverseComplement (before ++ after)).
Proof.
  rewrite getReverseComplement_spec, length_rev. split; [|split].
  - apply omap_length_le.
  - rewrite <- length_rev, <- getReverseComplement_spec.
    apply getReverseComplement_same_length.
  - intros before c after -> Hc.
    rewrite getReverseComplement_spec, !omap_app. cbn.
    destruct (iupacComplement c) as [d|] eqn:Hd; [|reflexivity].
    exfalso. apply Hc, iupacComplement_recognized. eauto.
Qed.

(** A read with lower-case letters: the reverse strand is shorter. *)
Example lower_case_is_dropped :
  getReverseComplement (list_ascii_of_string "ACgtNN")
  = list_ascii_of_string "NNGT".
Proof. reflexivity. Qed.

(** C5 as stated fails: an unrecognized symbol is not passed through,
    and the output is shorter than the input. *)
Lemma unrecognized_symbol_not_passed_through :
  getReverseComplement (list_ascii_of_string "AxG")
  = list_ascii_of_string "CT"
  /\ length (getReverseComplement (list_ascii_of_string "AxG"))
     <> length (list_ascii_of_string "AxG").
Proof. split; [reflexivity | discriminate]. Qed.

(** C5, amended.  For every input, the reverse complement is the input
    read backwards with each recognized symbol replaced by its
    complement in the table and each unrecognized symbol left out; no
    input is rejected, and the output is as long as the input when every
    symbol is recognized. *)
Theorem reverse_complement_follows_table s :
  getReverseComplement s = rev (omap iupacComplement s)
  /\ (forall c, iupacComplement c = None <-> ~ recognized c)
  /\ (Forall recognized s ->
      length (getReverseComplement s) = length s).
Proof.
  split; [apply getReverseComplement_spec|]. split.
  - intros c. rewrite <- iupacComplement_recognized.
    destruct (iupacComplement c); split; intros H;
      first [discriminate | reflexivity | exfalso; apply H; eauto
            | intros [? ?]; discriminate ].
  - apply getReverseComplement_same_length.
Qed.

(** C6.  On a sequence of recognized symbols the reverse complement is
    its own inverse. *)
Theorem reverse_complement_involution s :
  Forall recognized s ->
  getReverseComplement (getReverseComplement s) = s.
Proof.
  intros Hs. rewrite !getReverseComplement_spec.
  rewrite omap_rev, rev_involutive. now apply complement_twice.
Qed.

Lemma reverse_complement_involution_witness :
  Forall recognized (list_ascii_of_string "ACGTRYSWKMBDHVN.-?*")
  /\ getReverseComplement
       (getReverseComplement (list_ascii_of_string "ACGTRYSWKMBDHVN.-?*"))
     = list_ascii_of_string "ACGTRYSWKMBDHVN.-?*".
Proof.
  assert (H : Forall recognized
                (list_ascii_of_string "ACGTRYSWKMBDHVN.-?*")).
  { apply Forall_forall. intros c Hc. apply recognizedb_spec.
    revert c Hc. apply Forall_forall. vm_compute.
    repeat constructor. }
  split; [exact H | exact (reverse_complement_involution _ H)].
Defined.

End ReverseComplementClaims.

(** ** The band refinement loop *)

Module RefinementFacts.
Import Model Align Spec.

Lemma retained_app start xs ys :
  retained start (xs ++ ys) = retained (retained start xs) ys.
Proof. unfold retained. apply fold_left_app. Qed.

Section Loop.

Variable cfg : Settings.
Variable ext : Collaborators.
Variables (readSeq : list ascii) (readLength : Z).
Variables (refSeq : list ascii) (refLen : Z).
Variables (line : AlignmentLine) (verbosity : Z) (scoring : Score).

Local Abbreviation primitive :=
  (bandedChainAlignment ext readSeq refSeq line scoring).
Local Abbreviation shortest := (Z.min readLength refLen).
Local Abbreviation ceiling := (MAX_BAND_SIZE cfg).

Lemma oneBand_attempt b output :
  exists output',
    semiGlobalAlignmentOneLineOneBand
      ext readSeq readLength refSeq refLen line b verbosity output
      scoring
    = (bandedChainAlignment ext readSeq refSeq line scoring
         (Z.min b (Z.min readLength refLen)),
       output',
       mkAttempt b (Z.min b (Z.min readLength refLen))
         (bandedChainAlignment ext readSeq refSeq line scoring
            (Z.min b (Z.min readLength refLen)))).
Proof.
  unfold semiGlobalAlignmentOneLineOneBand.
  replace (if b >? Z.min readLength refLen
           then Z.min readLength refLen else b)
    with (Z.min b (Z.min readLength refLen))
    by (destruct (Z.gtb_spec b (Z.min readLength refLen)); lia).
  destruct (bandedChainAlignment _ _ _ _ _ _); eexists; reflexivity.
Qed.

Lemma doubled_0 b : doubled b 0 = b.
Proof. unfold doubled. cbn. lia. Qed.

Lemma doubled_S b k : doubled b (S k) = doubled (b * 2) k.
Proof.
  unfold doubled. rewrite Nat2Z.inj_succ, Z.pow_succ_r by lia. lia.
Qed.

Lemma loopRun_single b kept attempt result :
  attemptAt primitive shortest b attempt ->
  notImproving (snd kept) attempt
  \/ MAX_BAND_SIZE cfg < 2 * requested attempt ->
  result = fst (retain kept attempt) ->
  loopRun primitive shortest ceiling b kept [attempt] result.
Proof.
  intros Hat Hwhy Hres. split; [discriminate|]. split; [|exact Hres].
  intros [|k] a Hk; [|discriminate]. cbn in Hk.
  injection Hk as <-. rewrite doubled_0. split; [exact Hat|].
  split; [intros _; exact Hwhy | reflexivity].
Qed.

Lemma loopRun_cons b kept attempt attempts result :
  attemptAt primitive shortest b attempt ->
  ~ notImproving (snd kept) attempt ->
  ~ MAX_BAND_SIZE cfg < 2 * requested attempt ->
  loopRun primitive shortest ceiling (b * 2) (retain kept attempt) attempts
          result ->
  loopRun primitive shortest ceiling b kept (attempt :: attempts) result.
Proof.
  intros Hat Hni Hmax (Hne & Hall & Hres).
  split; [discriminate|]. split; [|exact Hres].
  intros [|k] a Hk; cbn in Hk.
  - injection Hk as <-. rewrite doubled_0. split; [exact Hat|].
    cbn [length take]. split.
    + intros Hlen. destruct attempts; [congruence | cbn in Hlen; lia].
    + intros [H|H]; [now apply Hni in H | now apply Hmax in H].
  - destruct (Hall k a Hk) as [Ha Hiff].
    rewrite doubled_S. split; [exact Ha|].
    cbn [length]. rewrite <- Hiff. lia.
Qed.

Lemma refinementLoop_runs fuel : forall b best bestScore output,
  0 < b ->
  (Z.to_nat (MAX_BAND_SIZE cfg - b) < fuel)%nat ->
  exists result output' attempts,
    refinementLoop cfg ext fuel readSeq readLength refSeq refLen line
                   verbosity scoring b best bestScore output
    = Some (result, output', attempts)
    /\ loopRun primitive shortest ceiling b (best, bestScore) attempts
               result.
Proof.
  induction fuel as [|fuel IH]; intros b best bestScore output Hb Hfuel;
    [lia|].
  cbn [refinementLoop].
  destruct (oneBand_attempt b output) as [out1 ->].
  set (w := Z.min b (Z.min readLength refLen)).
  set (prim := bandedChainAlignment ext readSeq refSeq line scoring w).
  set (att := mkAttempt b w prim).
  assert (Hat : attemptAt primitive shortest b att) by (repeat split).
  (* going on with the doubled width *)
  assert (Hnext : forall kept',
             kept' = retain (best, bestScore) att ->
             ~ notImproving bestScore att ->
             exists result output' attempts,
               (if b * 2 >? MAX_BAND_SIZE cfg
                then Some (fst kept', out1, [att])
                else
                  match refinementLoop cfg ext fuel readSeq readLength
                          refSeq refLen line verbosity scoring (b * 2)
                          (fst kept') (snd kept') out1 with
                  | Some (result, output, attempts) =>
                      Some (result, output, att :: attempts)
                  | None => None
                  end)
               = Some (result, output', attempts)
               /\ loopRun primitive shortest ceiling b (best, bestScore)
                          attempts result).
  { intros kept' Hkept Hnot.
    destruct (Z.gtb_spec (b * 2) (MAX_BAND_SIZE cfg)) as [Hgt|Hle].
    - exists (fst kept'), out1, [att]. split; [reflexivity|].
      apply loopRun_single;
        [exact Hat | right; cbn; lia | now rewrite Hkept].
    - destruct (IH (b * 2) (fst kept') (snd kept') out1)
        as (result & out2 & atts & -> & Hrun); [lia|lia|].
      exists result, out2, (att :: atts). split; [reflexivity|].
      apply loopRun_cons; [exact Hat | exact Hnot | cbn; lia |].
      rewrite <- Hkept. now rewrite <- surjective_pairing in Hrun. }
  unfold retain in Hnext. cbn [outcome att snd] in Hnext.
  destruct prim as [found|] eqn:Hprim.
  - destruct (Qle_bool (m_scaledScore found) bestScore) eqn:Hle.
    + exists best, out1, [att]. split; [reflexivity|].
      apply loopRun_single; [exact Hat | |].
      * left. exists found. split; [reflexivity|].
        now apply Qle_bool_iff.
      * unfold retain. cbn. now rewrite Hle.
    + apply (Hnext (Some found, m_scaledScore found)).
      * reflexivity.
      * intros (f & Hf & Hfle). cbn in Hf. injection Hf as <-.
        apply Qle_bool_iff in Hfle. cbn in Hfle. congruence.
  - apply (Hnext (best, bestScore)); [reflexivity|].
    intros (f & Hf & _). discriminate.
Qed.

End Loop.

(** Facts on the retained alignment. *)

Lemma retain_kept_some kept attempt found :
  fst kept = Some found -> is_Some (fst (retain kept attempt)).
Proof.
  intros H. unfold retain. destruct (outcome attempt) as [f|].
  - destruct (Qle_bool _ _); cbn; eauto.
  - eauto.
Qed.

Lemma retained_kept_some attempts : forall kept,
  is_Some (fst kept) -> is_Some (fst (retained kept attempts)).
Proof.
  induction attempts as [|a l IH]; intros kept [f Hf]; cbn; [eauto|].
  apply IH. eapply retain_kept_some; eauto.
Qed.

Lemma retained_failed attempts : forall kept,
  Forall failed attempts -> retained kept attempts = kept.
Proof.
  induction attempts as [|a l IH]; intros kept Hall; [reflexivity|].
  inversion Hall as [|? ? Ha Hl]; subst. cbn.
  unfold retain at 2. rewrite Ha. now apply IH.
Qed.

(** A retained alignment is the result of an attempt and scores above
    the value the accumulator started from. *)
Lemma retained_origin attempts : forall best bestScore found,
  fst (retained (best, bestScore) attempts) = Some found ->
  best = Some found
  \/ exists k attempt, attempts !! k = Some attempt
                       /\ outcome attempt = Some found
                       /\ (bestScore < m_scaledScore found)%Q.
Proof.
  induction attempts as [|a l IH]; intros best bestScore found H.
  - cbn in H. now left.
  - cbn in H. unfold retain at 2 in H. cbn [snd] in H.
    destruct (outcome a) as [f|] eqn:Ho.
    + destruct (Qle_bool (m_scaledScore f) bestScore) eqn:Hle.
      * destruct (IH _ _ _ H) as [?|(k & x & ? & ? & ?)]; [now left|].
        right. exists (S k), x. auto.
      * assert (Hlt : (bestScore < m_scaledScore f)%Q).
        { apply Qnot_le_lt. intros Hc. apply Qle_bool_iff in Hc.
          congruence. }
        destruct (IH _ _ _ H) as [Heq|(k & x & ? & ? & ?)].
        -- injection Heq as <-. right. exists O, a. auto.
        -- right. exists (S k), x. repeat split; auto.
           eapply Qlt_trans; eauto.
    + destruct (IH _ _ _ H) as [?|(k & x & ? & ? & ?)]; [now left|].
      right. exists (S k), x. auto.
Qed.

(** Nothing is retained exactly when every attempt failed or did not
    score above the starting value. *)
Lemma retained_none attempts bestScore :
  fst (retained (None, bestScore) attempts) = None
  <-> Forall (fun attempt => failed attempt
                             \/ notImproving bestScore attempt) attempts.
Proof.
  induction attempts as [|a l IH]; [cbn; split; auto|].
  cbn. unfold retain at 2. cbn [snd].
  destruct (outcome a) as [f|] eqn:Ho.
  - destruct (Qle_bool (m_scaledScore f) bestScore) eqn:Hle.
    + rewrite IH. split.
      * intros H. constructor; [|exact H]. right. exists f.
        split; [exact Ho | now apply Qle_bool_iff].
      * intros H. now inversion H.
    + split.
      * intros H.
        destruct (retained_kept_some l (Some f, m_scaledScore f))
          as [x Hx]; [cbn; eauto|]. unfold retained in Hx. congruence.
      * intros H. inversion H as [|? ? [Hf|(g & Hg & Hgle)] _]; subst.
        -- unfold failed in Hf. congruence.
        -- rewrite Ho in Hg. injection Hg as <-.
           apply Qle_bool_iff in Hgle. congruence.
  - rewrite IH. split.
    + intros H. constructor; [now left | exact H].
    + intros H. now inversion H.
Qed.

Lemma DBL_MIN_positive : (0 < DBL_MIN)%Q.
Proof. reflexivity. Qed.

Lemma substr_within line refSeq :
  lineWithin line refSeq ->
  exists trimmedRefSeq,
    substr refSeq (m_trimmedRefStart line)
           (m_trimmedRefEnd line - m_trimmedRefStart line)
    = Some trimmedRefSeq
    /\ Z.of_nat (length trimmedRefSeq)
       = m_trimmedRefEnd line - m_trimmedRefStart line.
Proof.
  intros [[H0 H1] H2]. unfold substr.
  destruct (Z.ltb_spec (m_trimmedRefStart line) 0); [lia|].
  destruct (Z.ltb_spec (Z.of_nat (length refSeq)) (m_trimmedRefStart line));
    [lia|].
  destruct (Z.ltb_spec (m_trimmedRefEnd line - m_trimmedRefStart line) 0);
    [lia|].
  cbn. eexists. split; [reflexivity|].
  rewrite length_take, length_drop. lia.
Qed.

(** [semiGlobalAlignmentOneLine] returns, and its attempts form a run of
    the loop from the starting band size. *)
Lemma oneLine_runs cfg ext readSeq refSeq line verbosity output scoring :
  0 < STARTING_BAND_SIZE cfg ->
  lineWithin line refSeq ->
  exists trimmedRefSeq best output' attempts,
    substr refSeq (m_trimmedRefStart line)
           (m_trimmedRefEnd line - m_trimmedRefStart line)
    = Some trimmedRefSeq
    /\ Z.of_nat (length trimmedRefSeq)
       = m_trimmedRefEnd line - m_trimmedRefStart line
    /\ semiGlobalAlignmentOneLine cfg ext readSeq refSeq line verbosity
                                  output scoring
       = Returns (best, output', attempts)
    /\ loopRun (bandedChainAlignment ext readSeq trimmedRefSeq line scoring)
               (Z.min (Z.of_nat (length readSeq))
                      (m_trimmedRefEnd line - m_trimmedRefStart line))
               (MAX_BAND_SIZE cfg) (STARTING_BAND_SIZE cfg) (None, DBL_MIN)
               attempts best.
Proof.
  intros Hpos Hline.
  destruct (substr_within line refSeq Hline) as (trimmed & Hsub & Hlen).
  destruct (refinementLoop_runs cfg ext readSeq (Z.of_nat (length readSeq))
              trimmed (m_trimmedRefEnd line - m_trimmedRefStart line) line
              verbosity scoring (bandFuel cfg) (STARTING_BAND_SIZE cfg)
              None DBL_MIN output)
    as (best & out & atts & Hrun & Hshape);
    [exact Hpos | unfold bandFuel; lia |].
  exists trimmed, best, out, atts.
  unfold semiGlobalAlignmentOneLine. rewrite Hsub, Hrun. auto.
Qed.

(** Every requested width of a run stays below the ceiling when the
    first one does. *)
Lemma loopRun_below_ceiling primitive shortest ceiling b kept attempts
      result k attempt :
  loopRun primitive shortest ceiling b kept attempts result ->
  b <= ceiling ->
  attempts !! k = Some attempt ->
  requested attempt <= ceiling.
Proof.
  intros (_ & Hall & _) Hb Hk.
  destruct k as [|k].
  - destruct (Hall _ _ Hk) as [(Hr & _) _]. rewrite Hr, doubled_0. exact Hb.
  - destruct (lookup_lt_is_Some_2 attempts k) as [prev Hprev].
    { apply lookup_lt_Some in Hk. lia. }
    destruct (Hall _ _ Hprev) as [(Hrp & _) Hiff].
    destruct (Hall _ _ Hk) as [(Hr & _) _].
    rewrite Hr, doubled_S. rewrite Hrp in Hiff.
    destruct (Z.le_gt_cases (doubled (b * 2) k) ceiling)
      as [Hle|Hgt]; [exact Hle|].
    exfalso. apply lookup_lt_Some in Hk.
    assert (S k = length attempts); [|lia].
    apply Hiff. right. rewrite <- doubled_S in Hgt.
    unfold doubled in *. rewrite Nat2Z.inj_succ, Z.pow_succ_r in Hgt by lia.
    lia.
Qed.

End RefinementFacts.

(** ** Properties of the refinement *)

Module RefinementClaims.
Import Model Align Spec Samples RefinementFacts.

(** C4.  For a fixed alignment line the refinement loop asks for the
    widths S, 2S, 4S, ... from the starting band size S; none of them is
    above the ceiling; the width handed to the banded primitive is the
    requested one cut down to the shorter of the read and the trimmed
    reference; and the loop ends exactly at the first attempt whose
    result does not score above the best score so far, or whose doubled
    width would pass the ceiling.  Before any result has come back the
    best score so far is the starting value of the accumulator,
    [DBL_MIN]. *)
Theorem band_widths_double_up_to_ceiling
        cfg ext readSeq refSeq line verbosity output scoring :
  bandsWellFormed cfg ->
  lineWithin line refSeq ->
  exists trimmedRefSeq best output' attempts,
    substr refSeq (m_trimmedRefStart line)
           (m_trimmedRefEnd line - m_trimmedRefStart line)
    = Some trimmedRefSeq
    /\ semiGlobalAlignmentOneLine cfg ext readSeq refSeq line verbosity
                                  output scoring
       = Returns (best, output', attempts)
    /\ attempts <> []
    /\ forall k attempt, attempts !! k = Some attempt ->
         requested attempt = doubled (STARTING_BAND_SIZE cfg) k
         /\ requested attempt <= MAX_BAND_SIZE cfg
         /\ passed attempt
            = Z.min (requested attempt)
                    (Z.min (Z.of_nat (length readSeq))
                           (Z.of_nat (length trimmedRefSeq)))
         /\ passed attempt <= MAX_BAND_SIZE cfg
         /\ outcome attempt
            = bandedChainAlignment ext readSeq trimmedRefSeq line scoring
                                   (passed attempt)
         /\ (S k = length attempts <->
             notImproving (bestScoreSoFar (take k attempts)) attempt
             \/ MAX_BAND_SIZE cfg < 2 * requested attempt).
Proof.
  intros [Hpos Hceil] Hline.
  destruct (oneLine_runs cfg ext readSeq refSeq line verbosity output
              scoring Hpos Hline)
    as (trimmed & best & out & atts & Hsub & Hlen & Hrun & Hshape).
  exists trimmed, best, out, atts.
  split; [exact Hsub|]. split; [exact Hrun|].
  pose proof Hshape as (Hne & Hall & _).
  split; [exact Hne|].
  intros k attempt Hk.
  destruct (Hall k attempt Hk) as [(Hr & Hp & Ho) Hiff].
  pose proof (loopRun_below_ceiling _ _ _ _ _ _ _ _ _
                Hshape Hceil Hk) as Hmax.
  rewrite Hlen. rewrite <- Hr in Hp.
  repeat split; try assumption; try (apply Hiff); lia.
Qed.

Lemma band_widths_double_up_to_ceiling_witness :
  bandsWellFormed sampleSettings
  /\ lineWithin lineA sampleReference
  /\ exists trimmedRefSeq best output' attempts,
       substr sampleReference 90 (310 - 90) = Some trimmedRefSeq
       /\ semiGlobalAlignmentOneLine
            sampleSettings (sampleCollaborators 0 [lineA] [] 5)
            sampleRead sampleReference lineA 3 "" sampleScore
          = Returns (best, output', attempts)
       /\ attempts <> []
       /\ forall k attempt, attempts !! k = Some attempt ->
            requested attempt = doubled 10 k
            /\ requested attempt <= 160
            /\ passed attempt
               = Z.min (requested attempt)
                       (Z.min (Z.of_nat (length sampleRead))
                              (Z.of_nat (length trimmedRefSeq)))
            /\ passed attempt <= 160
            /\ outcome attempt
               = bandedChainAlignment (sampleCollaborators 0 [lineA] [] 5)
                   sampleRead trimmedRefSeq lineA sampleScore
                   (passed attempt)
            /\ (S k = length attempts <->
                notImproving (bestScoreSoFar (take k attempts)) attempt
                \/ 160 < 2 * requested attempt).
Proof.
  assert (Hcfg : bandsWellFormed sampleSettings)
    by (unfold bandsWellFormed; cbn; lia).
  assert (Hline : lineWithin lineA sampleReference)
    by (unfold lineWithin; vm_compute; repeat split; discriminate).
  split; [exact Hcfg|]. split; [exact Hline|].
  exact (band_widths_double_up_to_ceiling
           sampleSettings (sampleCollaborators 0 [lineA] [] 5)
           sampleRead sampleReference lineA 3 "" sampleScore Hcfg Hline).
Defined.

(** The sample run: width 10 fails, 20 scores 60, 40 scores 90, 80
    scores 90 again and ends the loop. *)
Example sample_refinement :
  exists best output attempts,
    semiGlobalAlignmentOneLine
      sampleSettings (sampleCollaborators 0 [lineA] [] 5)
      sampleRead sampleReference lineA 0 "" sampleScore
    = Returns (Some best, output, attempts)
    /\ map (fun attempt => (requested attempt, passed attempt,
                            m_scaledScore <$> outcome attempt)) attempts
       = [ (10, 10, None); (20, 20, Some 60%Q);
           (40, 40, Some 90%Q); (80, 80, Some 90%Q) ]
    /\ m_scaledScore best = 90%Q.
Proof. eexists _, _, _. repeat split; vm_compute; reflexivity. Qed.

(** C9.  The best score starts at [DBL_MIN], a positive value.  So an
    alignment is returned only if an attempted band gave a result that
    scores strictly above [DBL_MIN]; and when the first result to come
    back scores zero or less, nothing is returned and no wider band is
    tried. *)
Theorem first_result_must_beat_DBL_MIN
        cfg ext readSeq refSeq line verbosity output scoring :
  0 < STARTING_BAND_SIZE cfg ->
  lineWithin line refSeq ->
  (0 < DBL_MIN)%Q
  /\ exists best output' attempts,
       semiGlobalAlignmentOneLine cfg ext readSeq refSeq line verbosity
                                  output scoring
       = Returns (best, output', attempts)
       /\ (forall found, best = Some found ->
             exists k attempt,
               attempts !! k = Some attempt
               /\ outcome attempt = Some found
               /\ (DBL_MIN < m_scaledScore found)%Q)
       /\ (forall k attempt found,
             attempts !! k = Some attempt ->
             outcome attempt = Some found ->
             (forall i earlier, (i < k)%nat ->
                attempts !! i = Some earlier -> failed earlier) ->
             (m_scaledScore found <= 0)%Q ->
             best = None /\ length attempts = S k).
Proof.
  intros Hpos Hline. split; [exact DBL_MIN_positive|].
  destruct (oneLine_runs cfg ext readSeq refSeq line verbosity output
              scoring Hpos Hline)
    as (trimmed & best & out & atts & _ & _ & Hrun & _ & Hall & Hres).
  exists best, out, atts. split; [exact Hrun|]. split.
  - intros found ->. symmetry in Hres.
    destruct (retained_origin _ _ _ _ Hres) as [?|H];
      [discriminate | exact H].
  - intros k attempt found Hk Ho Hearlier Hle.
    assert (Hfailed : Forall failed (take k atts)).
    { apply Forall_lookup. intros i x Hx.
      apply lookup_take_Some in Hx as [Hx Hi]. eauto. }
    assert (Hni : notImproving DBL_MIN attempt).
    { exists found. split; [exact Ho|].
      apply Qle_trans with 0%Q; [exact Hle|].
      apply Qlt_le_weak, DBL_MIN_positive. }
    destruct (Hall k attempt Hk) as [_ Hiff].
    rewrite (retained_failed _ _ Hfailed) in Hiff.
    assert (Hlen : S k = length atts) by (apply Hiff; now left).
    split; [|now symmetry].
    rewrite Hres. apply retained_none.
    rewrite <- (take_drop k atts). apply Forall_app. split.
    + eapply Forall_impl; [exact Hfailed|]. now left.
    + rewrite (drop_S _ _ _ Hk).
      rewrite drop_ge by lia. constructor; [now right | constructor].
Qed.

Lemma first_result_must_beat_DBL_MIN_witness :
  0 < STARTING_BAND_SIZE sampleSettings
  /\ lineWithin lineA sampleReference
  /\ (0 < DBL_MIN)%Q
  /\ exists best output' attempts,
       semiGlobalAlignmentOneLine
         sampleSettings (sampleCollaborators 0 [lineA] [] 5)
         sampleRead sampleReference lineA 3 "" (mkScore 0 (-1) (-1) (-2))
       = Returns (best, output', attempts)
       /\ (forall found, best = Some found ->
             exists k attempt,
               attempts !! k = Some attempt
               /\ outcome attempt = Some found
               /\ (DBL_MIN < m_scaledScore found)%Q)
       /\ (forall k attempt found,
             attempts !! k = Some attempt ->
             outcome attempt = Some found ->
             (forall i earlier, (i < k)%nat ->
                attempts !! i = Some earlier -> failed earlier) ->
             (m_scaledScore found <= 0)%Q ->
             best = None /\ length attempts = S k).
Proof.
  assert (Hpos : 0 < STARTING_BAND_SIZE sampleSettings) by (cbn; lia).
  assert (Hline : lineWithin lineA sampleReference)
    by (unfold lineWithin; vm_compute; repeat split; discriminate).
  split; [exact Hpos|]. split; [exact Hline|].
  exact (first_result_must_beat_DBL_MIN
           sampleSettings (sampleCollaborators 0 [lineA] [] 5)
           sampleRead sampleReference lineA 3 ""
           (mkScore 0 (-1) (-1) (-2)) Hpos Hline).
Defined.

(** With a match score of zero the first result scores 0: it is dropped
    and the loop ends at width 20, though 40, 80 and 160 were left. *)
Example sample_zero_score :
  exists output attempts,
    semiGlobalAlignmentOneLine
      sampleSettings (sampleCollaborators 0 [lineA] [] 5)
      sampleRead sampleReference lineA 0 "" (mkScore 0 (-1) (-1) (-2))
    = Returns (None, output, attempts)
    /\ map (fun attempt => (requested attempt, passed attempt,
                            m_scaledScore <$> outcome attempt)) attempts
       = [ (10, 10, None); (20, 20, Some 0%Q) ].
Proof. eexists _, _. repeat split; vm_compute; reflexivity. Qed.

(** What the refinement does with a primitive that fails.  The one-band
    routine turns the failure into "no result"; after a failed attempt
    the loop tries the doubled width whenever the ceiling allows it; and
    no alignment is returned exactly when every attempt failed or gave a
    result that did not score above the starting value. *)
Lemma refinement_absorbs_primitive_failure
      cfg ext readSeq refSeq line verbosity output scoring :
  0 < STARTING_BAND_SIZE cfg ->
  lineWithin line refSeq ->
  exists best output' attempts,
    semiGlobalAlignmentOneLine cfg ext readSeq refSeq line verbosity
                               output scoring
    = Returns (best, output', attempts)
    /\ (forall k attempt, attempts !! k = Some attempt ->
          failed attempt ->
          2 * requested attempt <= MAX_BAND_SIZE cfg ->
          exists next, attempts !! S k = Some next
                       /\ requested next = 2 * requested attempt)
    /\ (best = None <->
        Forall (fun attempt => failed attempt
                               \/ notImproving DBL_MIN attempt) attempts).
Proof.
  intros Hpos Hline.
  destruct (oneLine_runs cfg ext readSeq refSeq line verbosity output
              scoring Hpos Hline)
    as (trimmed & best & out & atts & _ & _ & Hrun & _ & Hall & Hres).
  exists best, out, atts. split; [exact Hrun|]. split.
  - intros k attempt Hk Hf Hroom.
    destruct (Hall k attempt Hk) as [(Hr & _) Hiff].
    assert (Hmore : S k <> length atts).
    { intros Hlen. apply Hiff in Hlen as [(f & Hsome & _)|Hmax]; [|lia].
      unfold failed in Hf. congruence. }
    destruct (lookup_lt_is_Some_2 atts (S k)) as [next Hnext].
    { apply lookup_lt_Some in Hk. lia. }
    exists next. split; [exact Hnext|].
    destruct (Hall (S k) next Hnext) as [(Hrn & _) _].
    rewrite Hrn, Hr. unfold doubled.
    rewrite Nat2Z.inj_succ, Z.pow_succ_r by lia. lia.
  - rewrite Hres. apply retained_none.
Qed.

Lemma oneBand_catches ext readSeq readLen refSeq refLen line bandSize
      verbosity output scoring :
  bandedChainAlignment ext readSeq refSeq line scoring
    (Z.min bandSize (Z.min readLen refLen)) = None ->
  fst (fst (semiGlobalAlignmentOneLineOneBand ext readSeq readLen refSeq
              refLen line bandSize verbosity output scoring)) = None.
Proof.
  intros H.
  destruct (oneBand_attempt ext readSeq readLen refSeq refLen line
              verbosity scoring bandSize output) as [out ->].
  exact H.
Qed.

End RefinementClaims.

(** ** The per-level driver and the entry point *)

Module DriverFacts.
Import Model Align Spec ReverseComplement.

Local Open Scope string_scope.
Local Open Scope list_scope.

Lemma append_differs (name suffix : string) :
  suffix <> "" -> name <> name +:+ suffix.
Proof.
  intros Hs. induction name as [|c name IH]; cbn.
  - intros H. now apply Hs.
  - intros H. injection H as H. now apply IH.
Qed.

Lemma append_injective (name a b : string) :
  name +:+ a = name +:+ b -> a = b.
Proof. induction name; cbn; [auto | intros H; injection H; auto]. Qed.

(** Whenever the entry point returns, the index it leaves behind still
    holds both strands of the query. *)
Lemma query_strands_stay cfg ext readName readSeq verbosity expectedSlope
      (kmerPositions : KmerPositions) matchScore mismatchScore gapOpenScore
      gapExtensionScore lowScoreThreshold buffer
      (index : KmerPositions) events :
  semiGlobalAlignmentAllRefs cfg ext readName readSeq verbosity
    expectedSlope kmerPositions matchScore mismatchScore gapOpenScore
    gapExtensionScore lowScoreThreshold
  = Returns (buffer, index, events) ->
  index !! (readName +:+ "+") = Some readSeq
  /\ index !! (readName +:+ "-") = Some (getReverseComplement readSeq).
Proof.
  unfold semiGlobalAlignmentAllRefs.
  destruct (candidatesLoop _ _ _ _ _ _ _ _ _) as [sets top].
  set (index1 := addPositions _ _ (addPositions _ _ kmerPositions)).
  assert (Hleft :
            deletePositions readName index1 !! (readName +:+ "+")
            = Some readSeq
            /\ deletePositions readName index1 !! (readName +:+ "-")
               = Some (getReverseComplement readSeq)).
  { unfold index1, deletePositions, addPositions. split.
    - rewrite lookup_delete_ne by (now apply append_differs).
      rewrite lookup_insert_ne, lookup_insert_eq; [reflexivity|].
      intros H. apply append_injective in H. discriminate.
    - rewrite lookup_delete_ne by (now apply append_differs).
      now rewrite lookup_insert_eq. }
  intros H.
  repeat match type of H with
         | context [mbind _ ?m] =>
             destruct m as [[[? ?] ?]| | |]; cbn in H; try discriminate
         | context [if ?b then _ else _] => destruct b; cbn in H
         end;
    injection H as <- <- <-; exact Hleft.
Qed.

Lemma bind_returns_inv {A B} (m : Outcome A) (f : A -> Outcome B) b :
  m ≫= f = Returns b -> exists a, m = Returns a /\ f a = Returns b.
Proof. destruct m as [a| | |]; cbn; intros H; [eauto | | |]; discriminate. Qed.

(** The driver records [LevelStarted] once, on entry; its loops record
    none. *)

Lemma levelsStarted_app xs ys :
  levelsStarted (xs ++ ys) = levelsStarted xs ++ levelsStarted ys.
Proof. unfold levelsStarted. apply omap_app. Qed.

Lemma levelsStarted_bands attempts :
  levelsStarted (map BandTried attempts) = [].
Proof. induction attempts as [|a l IH]; [reflexivity | exact IH]. Qed.

Lemma linesLoop_levels cfg ext n : forall j i readSeq refSeq minPointCount
    minAlignmentLength verbosity scoringScheme alignmentLines alignments
    output found output' events,
  linesLoop cfg ext n j i readSeq refSeq minPointCount minAlignmentLength
            verbosity scoringScheme alignmentLines alignments output
  = Returns (found, output', events) ->
  levelsStarted events = [].
Proof.
  induction n as [|n IH]; intros * H; cbn in H.
  - now injection H as <- <- <-.
  - destruct (alignmentLines !! i) as [line|]; [|discriminate].
    destruct (buildSeedChain ext line minPointCount minAlignmentLength)
      as [[] line'].
    + destruct (semiGlobalAlignmentOneLine _ _ _ _ _ _ _ _)
        as [[[alignment out1] attempts]| | |]; cbn in H; try discriminate.
      destruct (linesLoop _ _ n _ _ _ _ _ _ _ _ _ _ _)
        as [[[als out2] evs]| | |] eqn:Hrec; cbn in H; try discriminate.
      injection H as <- <- <-.
      change (levelsStarted (map BandTried attempts ++ evs) = []).
      rewrite levelsStarted_app, levelsStarted_bands. cbn. eauto.
    + destruct (linesLoop _ _ n _ _ _ _ _ _ _ _ _ _ _)
        as [[[als out2] evs]| | |] eqn:Hrec; cbn in H; try discriminate.
      injection H as <- <- <-.
      change (levelsStarted evs = []). eauto.
Qed.

Lemma setsLoop_levels cfg ext rest : forall i (kmerPositions : KmerPositions)
    verbosity lowScoreThreshold highScoreThreshold mergeDistance
    minAlignmentLength minPointCount scoringScheme alignments output
    found output' events,
  setsLoop cfg ext rest i kmerPositions verbosity lowScoreThreshold
           highScoreThreshold mergeDistance minAlignmentLength minPointCount
           scoringScheme alignments output
  = Returns (found, output', events) ->
  levelsStarted events = [].
Proof.
  induction rest as [|commonKmerSet rest IH]; intros * H; cbn in H.
  - now injection H as <- <- <-.
  - destruct (Qltb _ _).
    + destruct (setsLoop _ _ rest _ _ _ _ _ _ _ _ _ _ _)
        as [[[als out] evs]| | |] eqn:Hrec; cbn in H; try discriminate.
      injection H as <- <- <-. cbn. eauto.
    + destruct (getSequence _ (m_readName _)) as [readSeq|]; [|discriminate].
      destruct (getSequence _ (m_refName _)) as [refSeq|]; [|discriminate].
      destruct (findAlignmentLines _ _ _ _ _ _ _ _) as [lines printed].
      destruct (length lines =? 0)%nat.
      * destruct (setsLoop _ _ rest _ _ _ _ _ _ _ _ _ _ _)
          as [[[als out] evs]| | |] eqn:Hrec; cbn in H; try discriminate.
        injection H as <- <- <-.
        change (levelsStarted evs = []). eauto.
      * destruct (linesLoop _ _ _ _ _ _ _ _ _ _ _ _ _ _)
          as [[[als1 out1] evs1]| | |] eqn:Hlines; cbn in H;
          try discriminate.
        destruct (setsLoop _ _ rest _ _ _ _ _ _ _ _ _ _ _)
          as [[[als out] evs]| | |] eqn:Hrec; cbn in H; try discriminate.
        injection H as <- <- <-.
        change (levelsStarted (evs1 ++ evs) = []).
        rewrite levelsStarted_app, (linesLoop_levels _ _ _ _ _ _ _ _ _ _ _
                                      _ _ _ _ _ _ Hlines).
        cbn. eauto.
Qed.

Lemma oneLevel_levels cfg ext commonKmerSets (kmerPositions : KmerPositions)
      verbosity output matchScore mismatchScore gapOpenScore
      gapExtensionScore sensitivityLevel maxScoreAllSets found output'
      events :
  semiGlobalAlignmentAllRefsOneLevel cfg ext commonKmerSets kmerPositions
    verbosity output matchScore mismatchScore gapOpenScore gapExtensionScore
    sensitivityLevel maxScoreAllSets
  = Returns (found, output', events) ->
  levelsStarted events
  = [(sensitivityLevel, levelConstants cfg sensitivityLevel)].
Proof.
  unfold semiGlobalAlignmentAllRefsOneLevel.
  destruct (levelConstants cfg sensitivityLevel) as [[[[low high] merge] len] pts]
    eqn:Hc.
  destruct (setsLoop _ _ _ _ _ _ _ _ _ _ _ _ _ _)
    as [[[als out] evs]| | |] eqn:Hsets; cbn; intros H; try discriminate.
  injection H as <- <- <-. cbn. f_equal.
  eapply setsLoop_levels; eauto.
Qed.

(** A candidate whose index is not below the number of its lines: the
    first turn of the inner loop reads past the end of the vector. *)
Lemma linesLoop_out_of_range cfg ext n j i readSeq refSeq minPointCount
      minAlignmentLength verbosity scoringScheme
      (alignmentLines : list AlignmentLine) alignments output :
  (length alignmentLines <= i)%nat ->
  linesLoop cfg ext (S n) j i readSeq refSeq minPointCount
            minAlignmentLength verbosity scoringScheme alignmentLines
            alignments output
  = Undefined.
Proof. intros H. cbn. now rewrite lookup_ge_None_2. Qed.

(** On every input on which the entry point returns, each run of the
    per-level driver, the first and the reruns alike, was given level 1
    and selected the level-1 constants. *)
Lemma every_run_is_level_1 cfg ext readName readSeq verbosity expectedSlope
      (kmerPositions : KmerPositions) matchScore mismatchScore gapOpenScore
      gapExtensionScore lowScoreThreshold buffer
      (index : KmerPositions) events :
  semiGlobalAlignmentAllRefs cfg ext readName readSeq verbosity
    expectedSlope kmerPositions matchScore mismatchScore gapOpenScore
    gapExtensionScore lowScoreThreshold
  = Returns (buffer, index, events) ->
  Forall (fun run => run = (1, levelConstants cfg 1)) (levelsStarted events).
Proof.
  unfold semiGlobalAlignmentAllRefs.
  destruct (candidatesLoop _ _ _ _ _ _ _ _ _) as [sets top].
  intros H.
  apply bind_returns_inv in H as ([[als1 out1] ev1] & Hrun1 & H).
  apply bind_returns_inv in H as ([[als out] ev] & Hmore & H).
  injection H as <- <- <-.
  apply oneLevel_levels in Hrun1.
  rewrite levelsStarted_app, Hrun1.
  constructor; [reflexivity|].
  destruct (needsMoreSensitiveAlignment _ _ _).
  - apply bind_returns_inv in Hmore as ([[als2 out2] ev2] & Hrun2 & Hmore).
    apply oneLevel_levels in Hrun2.
    destruct (readHasUnalignedParts _ _).
    + apply bind_returns_inv in Hmore as ([[als3 out3] ev3] & Hrun3 & Hmore).
      apply oneLevel_levels in Hrun3.
      injection Hmore as <- <- <-.
      rewrite levelsStarted_app, Hrun2, Hrun3. repeat constructor.
    + injection Hmore as <- <- <-. rewrite Hrun2. repeat constructor.
  - injection Hmore as <- <- <-. constructor.
Qed.

End DriverFacts.

Module DriverClaims.
Import Model Align Spec Samples ReverseComplement.

Local Open Scope string_scope.

(** C1.  A query whose only line has three points, one fewer than level
    1 asks for and as many as level 2 asks for.  Level 1 finds nothing,
    so the driver is run again twice; each time it is given sensitivity
    level 1 and selects the level-1 constants, which differ from those of
    levels 2 and 3, and the seed chain is refused three times. *)
Theorem escalation_reruns_with_level_1 :
  exists buffer index events,
    semiGlobalAlignmentAllRefs
      sampleSettings (sampleCollaborators 0 [lineA] [] 3)
      "read" sampleRead 0 1 sampleIndex 1 (-1) (-2) (-1) 80
    = Returns (buffer, index, events)
    /\ levelsStarted events
       = [ (1, levelConstants sampleSettings 1);
           (1, levelConstants sampleSettings 1);
           (1, levelConstants sampleSettings 1) ]
    /\ levelConstants sampleSettings 1 <> levelConstants sampleSettings 2
    /\ levelConstants sampleSettings 1 <> levelConstants sampleSettings 3
    /\ chainsTried events
       = [ (0%nat, 0%nat, 90, 4, false);
           (0%nat, 0%nat, 90, 4, false);
           (0%nat, 0%nat, 90, 4, false) ].
Proof.
  eexists _, _, _. split; [vm_compute; reflexivity|].
  repeat split; try discriminate; vm_compute; reflexivity.
Qed.

(** C2.  The first candidate has the two lines [lineA] and [lineB].
    Both turns of the inner loop use the line at index 0, the index of
    the candidate: [lineA] is aligned twice and [lineB] never. *)
Theorem inner_loop_reads_outer_index :
  exists buffer index events,
    semiGlobalAlignmentAllRefs
      sampleSettings (sampleCollaborators 0 [lineA; lineB] [] 5)
      "read" sampleRead 0 1 sampleIndex 1 (-1) (-2) (-1) 80
    = Returns (buffer, index, events)
    /\ linesFound events = [(0%nat, [lineA; lineB])]
    /\ chainsTried events
       = [ (0%nat, 0%nat, m_trimmedRefStart lineA, 4, true);
           (0%nat, 1%nat, m_trimmedRefStart lineA, 4, true) ]
    /\ buffer = "read,ref,90,40;read,ref,90,40;".
Proof.
  eexists _, _, _. split; [vm_compute; reflexivity|].
  repeat split; vm_compute; reflexivity.
Qed.

(** C3.  After the call the index still holds the entries [read+] and
    [read-], which it did not hold before; [deletePositions] was given
    the bare name [read]. *)
Theorem query_entries_left_in_index :
  exists buffer (index : KmerPositions) events,
    semiGlobalAlignmentAllRefs
      sampleSettings (sampleCollaborators 0 [lineA] [] 5)
      "read" sampleRead 0 1 sampleIndex 1 (-1) (-2) (-1) 80
    = Returns (buffer, index, events)
    /\ sampleIndex !! "read+" = None
    /\ sampleIndex !! "read-" = None
    /\ index !! "read+" = Some sampleRead
    /\ index !! "read-" = Some (getReverseComplement sampleRead)
    /\ index !! "ref" = Some sampleReference.
Proof.
  eexists _, _, _. split; [vm_compute; reflexivity|].
  repeat split; vm_compute; reflexivity.
Qed.

(** C8.  Both strands of the query reach the driver, each with one
    line.  For the second candidate the inner loop reads
    [alignmentLines[1]] of a vector of one element: the call has no
    defined result, and no buffer is returned. *)
Theorem entry_point_reads_out_of_range :
  semiGlobalAlignmentAllRefs
    sampleSettings (sampleCollaborators 8 [lineA] [lineC] 5)
    "read" sampleRead 0 1 sampleIndex 1 (-1) (-2) (-1) 80
  = Undefined.
Proof. vm_compute. reflexivity. Qed.

End DriverClaims.

(** ** More on the reverse complement *)

Module ReverseComplementMore.
Import ReverseComplement ReverseComplementFacts.

(** X1.  The reverse complement of two sequences joined is the reverse
    complement of the second followed by that of the first. *)
Theorem reverse_complement_of_joined s t :
  getReverseComplement (s ++ t)
  = getReverseComplement t ++ getReverseComplement s.
Proof.
  rewrite !getReverseComplement_spec, omap_app. apply rev_app_distr.
Qed.

Lemma complement_output_recognized s :
  Forall recognized (omap iupacComplement s).
Proof.
  induction s as [|x s IH]; cbn; [constructor|].
  destruct (iupacComplement x) as [d|] eqn:Hd; [|exact IH].
  constructor; [|exact IH].
  apply iupacComplement_recognized.
  rewrite (iupacComplement_involutive _ _ Hd). eauto.
Qed.

Lemma complement_twice_filters s :
  omap iupacComplement (omap iupacComplement s)
  = List.filter recognizedb s.
Proof.
  induction s as [|x s IH]; [reflexivity|].
  change (List.filter recognizedb (x :: s))
    with (if recognizedb x then x :: List.filter recognizedb s
          else List.filter recognizedb s).
  change (omap iupacComplement (x :: s))
    with (match iupacComplement x with
          | Some d => d :: omap iupacComplement s
          | None => omap iupacComplement s
          end).
  destruct (iupacComplement x) as [d|] eqn:Hd.
  - assert (Hx : recognizedb x = true).
    { apply recognizedb_spec, iupacComplement_recognized.
      rewrite Hd. eauto. }
    rewrite Hx.
    change (omap iupacComplement (d :: omap iupacComplement s))
      with (match iupacComplement d with
            | Some y => y :: omap iupacComplement (omap iupacComplement s)
            | None => omap iupacComplement (omap iupacComplement s)
            end).
    rewrite (iupacComplement_involutive _ _ Hd). now f_equal.
  - assert (Hx : recognizedb x = false).
    { destruct (recognizedb x) eqn:Hr; [|reflexivity].
      apply recognizedb_spec, iupacComplement_recognized in Hr as [? Hr].
      congruence. }
    now rewrite Hx.
Qed.

(** X2.  For every sequence, recognized or not: the reverse complement
    holds recognized symbols only, and taking it twice gives the sequence
    back with its unrecognized symbols removed. *)
Theorem reverse_complement_twice s :
  Forall recognized (getReverseComplement s)
  /\ getReverseComplement (getReverseComplement s)
     = List.filter recognizedb s.
Proof.
  rewrite !getReverseComplement_spec. split.
  - apply Forall_rev, complement_output_recognized.
  - rewrite omap_rev, rev_involutive. apply complement_twice_filters.
Qed.

(** X3.  Base composition is mirrored: a symbol occurs in the sequence
    as often as its complement occurs in the reverse complement. *)
Theorem reverse_complement_counts s c d :
  iupacComplement c = Some d ->
  count_occ ascii_dec (getReverseComplement s) d = count_occ ascii_dec s c.
Proof.
  intros Hcd. rewrite getReverseComplement_spec, count_occ_rev.
  induction s as [|x s IH]; [reflexivity|]. cbn.
  destruct (iupacComplement x) as [y|] eqn:Hx.
  - cbn. rewrite IH.
    destruct (ascii_dec y d) as [->|Hyd], (ascii_dec x c) as [->|Hxc];
      try reflexivity.
    + exfalso. apply Hxc.
      apply iupacComplement_involutive in Hx, Hcd. congruence.
    + congruence.
  - rewrite IH. destruct (ascii_dec x c) as [->|]; [congruence|reflexivity].
Qed.

Lemma reverse_complement_counts_witness :
  iupacComplement "A"%char = Some "T"%char
  /\ count_occ ascii_dec
       (getReverseComplement (list_ascii_of_string "GATTACA")) "T"%char
     = count_occ ascii_dec (list_ascii_of_string "GATTACA") "A"%char.
Proof.
  split; [reflexivity|].
  exact (reverse_complement_counts (list_ascii_of_string "GATTACA")
           "A"%char "T"%char eq_refl).
Defined.

End ReverseComplementMore.

(** ** The returned buffer *)

Module BoundaryFacts.
Import Model Align Boundary.

Local Open Scope string_scope.
Local Open Scope list_scope.

Lemma append_cons (x : ascii) (a b : string) :
  String x a +:+ b = String x (a +:+ b).
Proof. reflexivity. Qed.

Lemma append_empty_l (a : string) : "" +:+ a = a.
Proof. reflexivity. Qed.

Lemma append_assoc (a b c : string) : (a +:+ b) +:+ c = a +:+ (b +:+ c).
Proof.
  induction a as [|x a IH]; [reflexivity|].
  rewrite !append_cons. f_equal. exact IH.
Qed.

Lemma append_empty_r (a : string) : a +:+ "" = a.
Proof.
  induction a as [|x a IH]; [reflexivity|].
  rewrite append_cons. f_equal. exact IH.
Qed.

Lemma std_string_buffer_prefix s rest :
  holds NUL s = false ->
  std_string (list_ascii_of_string s ++ NUL :: rest) = s.
Proof.
  induction s as [|c s IH]; cbn; [reflexivity|].
  intros H. apply orb_false_iff in H as [Hc Hs].
  rewrite Hc. now rewrite IH.
Qed.

Lemma std_string_no_NUL l : holds NUL (std_string l) = false.
Proof.
  induction l as [|c l IH]; cbn; [reflexivity|].
  destruct (Ascii.eqb c NUL) eqn:Hc; cbn; [reflexivity|].
  now rewrite Hc.
Qed.

(** X4.  The buffer of [cppStringToCString] is one character longer than
    the string and ends in the terminator; read back as a C string it
    gives the string again exactly when the string holds no ['\0'], and
    never more characters than the string has. *)
Theorem c_string_round_trip s :
  length (cppStringToCString_buffer s) = S (String.length s)
  /\ last (cppStringToCString_buffer s) = Some NUL
  /\ (std_string (cppStringToCString_buffer s) = s <-> holds NUL s = false)
  /\ (String.length (std_string (cppStringToCString_buffer s))
      <= String.length s)%nat.
Proof.
  unfold cppStringToCString_buffer. repeat split.
  - rewrite length_app. cbn.
    clear. induction s; cbn; [reflexivity|]. cbn in IHs. lia.
  - apply last_snoc.
  - intros H. rewrite <- H. apply std_string_no_NUL.
  - apply std_string_buffer_prefix.
  - clear. induction s as [|c s IH]; cbn; [lia|].
    destruct (Ascii.eqb c NUL); cbn; lia.
Qed.

(** A string cut at an embedded terminator. *)
Example embedded_NUL_cuts :
  std_string (cppStringToCString_buffer
                (String "a" (String NUL (String "b" ""))))
  = "a".
Proof. reflexivity. Qed.

Lemma parts_append (a rest : string) :
  holds ";" a = false ->
  parts (a +:+ String ";" rest) = a :: parts rest.
Proof.
  induction a as [|c a IH]; [reflexivity|].
  intros H. cbn in H. apply orb_false_iff in H as [Hc Ha].
  rewrite append_cons. cbn [parts]. rewrite Hc, IH by exact Ha.
  reflexivity.
Qed.

Lemma parts_single (a : string) : holds ";" a = false -> parts a = [a].
Proof.
  induction a as [|c a IH]; cbn; [reflexivity|].
  intros H. apply orb_false_iff in H as [Hc Ha].
  rewrite Hc, IH by exact Ha. reflexivity.
Qed.

Lemma returnString_unfold alignments : forall acc output,
  fold_left (fun acc alignment => acc +:+ getFullString alignment +:+ ";")
            alignments acc +:+ output
  = acc +:+ foldr (fun alignment rest =>
                     getFullString alignment +:+ String ";" rest)
                  output alignments.
Proof.
  induction alignments as [|a l IH]; intros acc output; [reflexivity|].
  cbn [fold_left foldr]. rewrite IH, !append_assoc. reflexivity.
Qed.

(** X18.  The returned text can be taken apart again: when no alignment
    description and no console output holds a semicolon, its parts are
    the descriptions of the alignments, in order, followed by the console
    output. *)
Theorem returnString_parts alignments output :
  Forall (fun alignment => holds ";" (getFullString alignment) = false)
         alignments ->
  holds ";" output = false ->
  parts (returnString alignments output)
  = map getFullString alignments ++ [output].
Proof.
  intros Hall Hout. unfold returnString.
  rewrite returnString_unfold, append_empty_l.
  induction Hall as [|a l Ha _ IH]; cbn.
  - now apply parts_single.
  - rewrite parts_append by exact Ha. now f_equal.
Qed.

Lemma returnString_parts_witness :
  Forall (fun alignment => holds ";" (getFullString alignment) = false)
         [mkAlignment 90 "8M" "ref 4" "read,ref,4,12,8";
          mkAlignment 60 "6M" "ref 9" "read,ref,9,15,6"]
  /\ holds ";" "2 lines found" = false
  /\ parts (returnString
              [mkAlignment 90 "8M" "ref 4" "read,ref,4,12,8";
               mkAlignment 60 "6M" "ref 9" "read,ref,9,15,6"]
              "2 lines found")
     = ["read,ref,4,12,8"; "read,ref,9,15,6"; "2 lines found"].
Proof.
  assert (H1 : Forall (fun alignment =>
                         holds ";" (getFullString alignment) = false)
                 [mkAlignment 90 "8M" "ref 4" "read,ref,4,12,8";
                  mkAlignment 60 "6M" "ref 9" "read,ref,9,15,6"])
    by (repeat constructor).
  assert (H2 : holds ";" "2 lines found" = false) by reflexivity.
  split; [exact H1|]. split; [exact H2|].
  exact (returnString_parts _ _ H1 H2).
Defined.

End BoundaryFacts.

(** ** More on the refinement *)

Module RefinementMore.
Import Model Align Spec Samples Invariants RefinementFacts BoundaryFacts.

Local Open Scope string_scope.
Local Open Scope list_scope.






(** X6.  The primitive is called at least once and at most
    [log2 (MAX_BAND_SIZE / STARTING_BAND_SIZE) + 1] times for a line. *)
Theorem refinement_call_count
        cfg ext readSeq refSeq line verbosity output scoring :
  bandsWellFormed cfg ->
  lineWithin line refSeq ->
  exists best output' attempts,
    semiGlobalAlignmentOneLine cfg ext readSeq refSeq line verbosity output
                               scoring
    = Returns (best, output', attempts)
    /\ 1 <= Z.of_nat (length attempts)
          <= Z.log2 (MAX_BAND_SIZE cfg / STARTING_BAND_SIZE cfg) + 1.
Proof.
  intros [Hpos Hceil] Hline.
  destruct (oneLine_runs cfg ext readSeq refSeq line verbosity output
              scoring Hpos Hline)
    as (trimmed & best & out & atts & _ & _ & Hrun & Hshape).
  exists best, out, atts. split; [exact Hrun|].
  pose proof Hshape as (Hne & Hall & _).
  destruct atts as [|a0 rest _] using rev_ind; [congruence|].
  rewrite length_app. cbn [length]. split; [lia|].
  assert (Hk : (rest ++ [a0]) !! length rest = Some a0).
  { rewrite lookup_app_r by lia. now rewrite Nat.sub_diag. }
  pose proof (loopRun_below_ceiling _ _ _ _ _ _ _ _ _ Hshape Hceil Hk)
    as Hmax.
  destruct (Hall _ _ Hk) as [(Hr & _) _]. rewrite Hr in Hmax.
  unfold doubled in Hmax.
  assert (Hpow : 2 ^ Z.of_nat (length rest)
                 <= MAX_BAND_SIZE cfg / STARTING_BAND_SIZE cfg).
  { apply Z.div_le_lower_bound; lia. }
  apply Z.log2_le_pow2 in Hpow; [lia|].
  eapply Z.lt_le_trans; [|exact Hpow]. apply Z.pow_pos_nonneg; lia.
Qed.

Lemma refinement_call_count_witness :
  bandsWellFormed sampleSettings
  /\ lineWithin lineA sampleReference
  /\ exists best output' attempts,
       semiGlobalAlignmentOneLine
         sampleSettings (sampleCollaborators 0 [lineA] [] 5)
         sampleRead sampleReference lineA 3 "" sampleScore
       = Returns (best, output', attempts)
       /\ 1 <= Z.of_nat (length attempts) <= Z.log2 (160 / 10) + 1.
Proof.
  assert (Hcfg : bandsWellFormed sampleSettings)
    by (unfold bandsWellFormed; cbn; lia).
  assert (Hline : lineWithin lineA sampleReference)
    by (unfold lineWithin; vm_compute; repeat split; discriminate).
  split; [exact Hcfg|]. split; [exact Hline|].
  exact (refinement_call_count
           sampleSettings (sampleCollaborators 0 [lineA] [] 5)
           sampleRead sampleReference lineA 3 "" sampleScore Hcfg Hline).
Defined.




(** X8.  A primitive that fails at every width up to the length of the
    shorter sequence: the loop goes through every doubled width up to the
    ceiling, [log2 (MAX_BAND_SIZE / STARTING_BAND_SIZE) + 1] calls, and
    returns none. *)
Theorem failing_primitive_exhausts_widths
        cfg ext readSeq refSeq line verbosity output scoring :
  bandsWellFormed cfg ->
  lineWithin line refSeq ->
  (forall trimmedRefSeq w,
     w <= Z.min (Z.of_nat (length readSeq))
                (m_trimmedRefEnd line - m_trimmedRefStart line) ->
     bandedChainAlignment ext readSeq trimmedRefSeq line scoring w = None) ->
  exists output' attempts,
    semiGlobalAlignmentOneLine cfg ext readSeq refSeq line verbosity output
                               scoring
    = Returns (None, output', attempts)
    /\ Forall failed attempts
    /\ Z.of_nat (length attempts)
       = Z.log2 (MAX_BAND_SIZE cfg / STARTING_BAND_SIZE cfg) + 1.
Proof.
  intros [Hpos Hceil] Hline Hfail.
  destruct (oneLine_runs cfg ext readSeq refSeq line verbosity output
              scoring Hpos Hline)
    as (trimmed & best & out & atts & _ & _ & Hrun & Hshape).
  pose proof Hshape as (Hne & Hall & Hres).
  assert (Hfailed : Forall failed atts).
  { apply Forall_lookup. intros k attempt Hk.
    destruct (Hall k attempt Hk) as [(_ & Hp & Ho) _].
    unfold failed. rewrite Ho. apply Hfail. rewrite Hp. lia. }
  rewrite (retained_failed _ _ Hfailed) in Hres. cbn in Hres. subst best.
  exists out, atts. split; [exact Hrun|]. split; [exact Hfailed|].
  destruct atts as [|a0 rest _] using rev_ind; [congruence|].
  rewrite length_app. cbn [length].
  assert (Hk : (rest ++ [a0]) !! length rest = Some a0).
  { rewrite lookup_app_r by lia. now rewrite Nat.sub_diag. }
  pose proof (loopRun_below_ceiling _ _ _ _ _ _ _ _ _ Hshape Hceil Hk)
    as Hmax.
  destruct (Hall _ _ Hk) as [(Hr & _) Hiff].
  assert (Hstop : MAX_BAND_SIZE cfg < 2 * requested a0).
  { destruct (proj1 Hiff) as [(f & Hf & _)|Hgt].
    - rewrite length_app. cbn. lia.
    - apply Forall_app in Hfailed as [_ Hlast].
      inversion Hlast as [|? ? Hf0 _]; subst. unfold failed in Hf0.
      congruence.
    - exact Hgt. }
  rewrite Hr in Hmax, Hstop. unfold doubled in Hmax, Hstop.
  assert (0 < 2 ^ Z.of_nat (length rest)) by (apply Z.pow_pos_nonneg; lia).
  rewrite (Z.log2_unique (MAX_BAND_SIZE cfg / STARTING_BAND_SIZE cfg)
             (Z.of_nat (length rest))); [lia | lia |].
  split.
  - apply Z.div_le_lower_bound; lia.
  - apply Z.div_lt_upper_bound; [lia|].
    rewrite Z.pow_succ_r by lia. lia.
Qed.

(** Eight bases against eight: the sample primitive fails below width
    15, so widths 10, 20, 40, 80 and 160, each cut down to 8, all fail. *)
Lemma failing_primitive_exhausts_widths_witness :
  bandsWellFormed sampleSettings
  /\ lineWithin (mkLine 4 12 []) (list_ascii_of_string "TTTTACGTACGTTTTT")
  /\ (forall trimmedRefSeq w,
        w <= Z.min (Z.of_nat (length (list_ascii_of_string "ACGTACGT")))
                   (12 - 4) ->
        bandedChainAlignment (sampleCollaborators 0 [] [] 5)
          (list_ascii_of_string "ACGTACGT") trimmedRefSeq (mkLine 4 12 [])
          sampleScore w
        = None)
  /\ exists output' attempts,
       semiGlobalAlignmentOneLine
         sampleSettings (sampleCollaborators 0 [] [] 5)
         (list_ascii_of_string "ACGTACGT")
         (list_ascii_of_string "TTTTACGTACGTTTTT") (mkLine 4 12 []) 0 ""
         sampleScore
       = Returns (None, output', attempts)
       /\ Forall failed attempts
       /\ Z.of_nat (length attempts) = Z.log2 (160 / 10) + 1.
Proof.
  assert (Hcfg : bandsWellFormed sampleSettings)
    by (unfold bandsWellFormed; cbn; lia).
  assert (Hline : lineWithin (mkLine 4 12 [])
                    (list_ascii_of_string "TTTTACGTACGTTTTT"))
    by (unfold lineWithin; vm_compute; repeat split; discriminate).
  assert (Hfail : forall trimmedRefSeq w,
             w <= Z.min (Z.of_nat (length (list_ascii_of_string "ACGTACGT")))
                        (12 - 4) ->
             bandedChainAlignment (sampleCollaborators 0 [] [] 5)
               (list_ascii_of_string "ACGTACGT") trimmedRefSeq
               (mkLine 4 12 []) sampleScore w
             = None).
  { intros trimmedRefSeq w Hw. cbn in Hw. cbn.
    destruct (Z.ltb_spec w 15); [reflexivity | lia]. }
  split; [exact Hcfg|]. split; [exact Hline|]. split; [exact Hfail|].
  exact (failing_primitive_exhausts_widths
           sampleSettings (sampleCollaborators 0 [] [] 5)
           (list_ascii_of_string "ACGTACGT")
           (list_ascii_of_string "TTTTACGTACGTTTTT") (mkLine 4 12 []) 0 ""
           sampleScore Hcfg Hline Hfail).
Defined.

(** What one call of the one-band routine does to the console output. *)
Lemma oneBand_output ext readSeq readLen refSeq refLen line bandSize
      verbosity output scoring :
  let output' :=
    snd (fst (semiGlobalAlignmentOneLineOneBand
                ext readSeq readLen refSeq refLen line bandSize verbosity
                output scoring)) in
  (exists printed, output' = output +:+ printed)
  /\ (verbosity <= 2 -> output' = output).
Proof.
  unfold semiGlobalAlignmentOneLineOneBand.
  destruct (bandedChainAlignment _ _ _ _ _ _) as [found|]; cbn [fst snd];
    destruct (Z.gtb_spec verbosity 2) as [H2|H2];
    try destruct (Z.gtb_spec verbosity 3) as [H3|H3];
    (split; [|intros Hv; first [lia | reflexivity]]);
    rewrite ?append_assoc;
    first [ eexists; reflexivity
          | exists ""; now rewrite append_empty_r ].
Qed.

Lemma refinementLoop_output cfg ext fuel readSeq readLength refSeq refLen
      line verbosity scoring :
  forall bandSize best bestScore output result output' attempts,
    refinementLoop cfg ext fuel readSeq readLength refSeq refLen line
                   verbosity scoring bandSize best bestScore output
    = Some (result, output', attempts) ->
    (exists printed, output' = output +:+ printed)
    /\ (verbosity <= 2 -> output' = output).
Proof.
  induction fuel as [|fuel IH]; intros * H; [discriminate|].
  cbn [refinementLoop] in H.
  pose proof (oneBand_output ext readSeq readLength refSeq refLen line
                bandSize verbosity output scoring) as Hone.
  destruct (semiGlobalAlignmentOneLineOneBand _ _ _ _ _ _ _ _ _ _)
    as [[alignment out1] att].
  cbn [fst snd] in Hone. destruct Hone as [[p1 Hp1] Hquiet1].
  assert (Hstop : forall r, Some (r, out1, [att])
                            = Some (result, output', attempts) ->
            (exists printed, output' = output +:+ printed)
            /\ (verbosity <= 2 -> output' = output)).
  { intros r Hr. injection Hr as <- <- <-. eauto. }
  assert (Hnext : forall b s,
            (if bandSize * 2 >? MAX_BAND_SIZE cfg
             then Some (b, out1, [att])
             else match refinementLoop cfg ext fuel readSeq readLength
                          refSeq refLen line verbosity scoring
                          (bandSize * 2) b s out1 with
                  | Some (r, o, l) => Some (r, o, att :: l)
                  | None => None
                  end)
            = Some (result, output', attempts) ->
            (exists printed, output' = output +:+ printed)
            /\ (verbosity <= 2 -> output' = output)).
  { intros b s Hb. destruct (bandSize * 2 >? MAX_BAND_SIZE cfg); [eauto|].
    destruct (refinementLoop cfg ext fuel readSeq readLength refSeq refLen
                line verbosity scoring (bandSize * 2) b s out1)
      as [[[r o] l]|] eqn:Hrec; [|discriminate].
    injection Hb as <- <- <-.
    destruct (IH _ _ _ _ _ _ _ Hrec) as [[p2 Hp2] Hquiet2]. split.
    - exists (p1 +:+ p2). now rewrite Hp2, Hp1, append_assoc.
    - intros Hv. now rewrite Hquiet2, Hquiet1. }
  destruct alignment as [found|]; [|eauto].
  destruct (Qle_bool _ _); eauto.
Qed.

(** X9.  The refinement only ever adds to the console output, and at
    verbosity 2 or less it adds nothing. *)
Theorem refinement_console_output
        cfg ext readSeq refSeq line verbosity output scoring
        best output' attempts :
  semiGlobalAlignmentOneLine cfg ext readSeq refSeq line verbosity output
                             scoring
  = Returns (best, output', attempts) ->
  (exists printed, output' = output +:+ printed)
  /\ (verbosity <= 2 -> output' = output).
Proof.
  unfold semiGlobalAlignmentOneLine.
  destruct (substr _ _ _) as [trimmed|]; [|discriminate].
  destruct (refinementLoop _ _ _ _ _ _ _ _ _ _ _ _ _ _)
    as [[[r o] l]|] eqn:Hloop; [|discriminate].
  intros H. injection H as <- <- <-.
  eapply refinementLoop_output; eauto.
Qed.

Lemma refinement_console_output_witness :
  exists best output' attempts,
    semiGlobalAlignmentOneLine
      sampleSettings (sampleCollaborators 0 [lineA] [] 5)
      sampleRead sampleReference lineA 2 "lines found" sampleScore
    = Returns (best, output', attempts)
    /\ (exists printed, output' = "lines found" +:+ printed)
    /\ (2 <= 2 -> output' = "lines found").
Proof.
  eexists _, _, _.
  assert (H : forall x,
             x = semiGlobalAlignmentOneLine
                   sampleSettings (sampleCollaborators 0 [lineA] [] 5)
                   sampleRead sampleReference lineA 2 "lines found"
                   sampleScore ->
             forall best output' attempts,
               x = Returns (best, output', attempts) ->
               semiGlobalAlignmentOneLine
                 sampleSettings (sampleCollaborators 0 [lineA] [] 5)
                 sampleRead sampleReference lineA 2 "lines found"
                 sampleScore
               = Returns (best, output', attempts)
               /\ (exists printed, output' = "lines found" +:+ printed)
               /\ (2 <= 2 -> output' = "lines found")).
  { intros x -> best output' attempts Hrun. split; [exact Hrun|].
    exact (refinement_console_output _ _ _ _ _ _ _ _ _ _ _ Hrun). }
  eapply (H _ eq_refl). vm_compute. reflexivity.
Defined.



End RefinementMore.

(** ** More on the candidates and the driver *)

Module DriverMore.
Import Model Align Spec Samples Invariants ReverseComplement RefinementFacts
       DriverFacts.

Local Open Scope string_scope.
Local Open Scope list_scope.

Lemma Qltb_false a b : Qltb a b = false -> (b <= a)%Q.
Proof.
  unfold Qltb. intros H. apply negb_false_iff in H.
  now apply Qle_bool_iff.
Qed.

Lemma Qltb_true a b : Qltb a b = true -> (a <= b)%Q.
Proof.
  unfold Qltb. intros H. apply negb_true_iff in H.
  apply Qlt_le_weak, Qnot_le_lt. intros Hc.
  apply Qle_bool_iff in Hc. congruence.
Qed.

Lemma addCandidate_collected cfg ext names pos neg readLength slope
      (kmerPositions : KmerPositions) readName refName acc :
  readName = pos \/ readName = neg ->
  In refName names ->
  collected cfg ext names pos neg readLength slope kmerPositions acc ->
  collected cfg ext names pos neg readLength slope kmerPositions
            (addCandidate cfg ext readName refName readLength
                          (getLength kmerPositions refName) slope
                          kmerPositions acc)
  /\ (length (fst (addCandidate cfg ext readName refName readLength
                                (getLength kmerPositions refName) slope
                                kmerPositions acc))
      <= S (length (fst acc)))%nat.
Proof.
  intros Hread Href (Hall & Hnn & Hmax). destruct acc as [sets top].
  unfold addCandidate. cbn [m_maxScore fst snd] in *.
  set (score := commonKmerMaxScore ext readName refName readLength _ _ _ _).
  destruct (Qltb score (MINIMUM_MAX_SCORE cfg)) eqn:Hfloor.
  - split; [|cbn; lia]. repeat split; assumption.
  - apply Qltb_false in Hfloor. cbn [fst snd].
    assert (Htop : (top <= std_max top score)%Q
                   /\ (score <= std_max top score)%Q).
    { unfold std_max. destruct (Qltb top score) eqn:Hlt.
      - split; [now apply Qltb_true | apply Qle_refl].
      - split; [apply Qle_refl | now apply Qltb_false]. }
    destruct Htop as [Htop Hscore].
    split; [|rewrite length_app; cbn; lia].
    split; [|split].
    + apply Forall_app. split.
      * eapply Forall_impl; [exact Hall|]. cbn.
        intros set (? & ? & ? & ? & ?). repeat split; try assumption.
        eapply Qle_trans; eauto.
      * constructor; [|constructor]. cbn. repeat split; assumption.
    + eapply Qle_trans; eauto.
    + unfold std_max. destruct (Qltb top score).
      * right. exists (mkCommonKmerSet readName refName score).
        split; [apply in_or_app; right; now left | reflexivity].
      * destruct Hmax as [H0|(set & Hin & Hset)]; [now left|].
        right. exists set. split; [apply in_or_app; now left | exact Hset].
Qed.

Lemma candidatesLoop_collected cfg ext names pos neg readLength slope
      (kmerPositions : KmerPositions) referenceNames : forall acc,
  (forall name, In name referenceNames -> In name names) ->
  collected cfg ext names pos neg readLength slope kmerPositions acc ->
  collected cfg ext names pos neg readLength slope kmerPositions
            (candidatesLoop cfg ext referenceNames pos neg readLength slope
                            kmerPositions acc)
  /\ (length (fst (candidatesLoop cfg ext referenceNames pos neg readLength
                                  slope kmerPositions acc))
      <= length (fst acc) + 2 * length referenceNames)%nat.
Proof.
  induction referenceNames as [|refName others IH]; intros acc Hin Hacc.
  - cbn. split; [exact Hacc | lia].
  - cbn [candidatesLoop].
    assert (Href : In refName names) by (apply Hin; now left).
    destruct (addCandidate_collected cfg ext names pos neg readLength slope
                kmerPositions pos refName acc (or_introl eq_refl) Href Hacc)
      as [H1 L1].
    destruct (addCandidate_collected cfg ext names pos neg readLength slope
                kmerPositions neg refName _ (or_intror eq_refl) Href H1)
      as [H2 L2].
    destruct (IH _ (fun name H => Hin name (or_intror H)) H2) as [H3 L3].
    split; [exact H3|]. cbn [length]. lia.
Qed.

(** X11.  The candidates kept for a query: each scores at least
    [MINIMUM_MAX_SCORE], pairs one strand of the query with a reference
    of the list, and carries the score the scoring gave that pair; there
    are at most two for each reference; and the maximum handed on is
    non-negative, bounds every kept score, and is zero or the score of a
    kept candidate. *)
Theorem candidates_respect_floor cfg ext referenceNames pos neg readLength
        slope (kmerPositions : KmerPositions) :
  let kept := candidatesLoop cfg ext referenceNames pos neg readLength slope
                             kmerPositions ([], 0%Q) in
  Forall (fun set =>
            (MINIMUM_MAX_SCORE cfg <= m_maxScore set)%Q
            /\ (m_maxScore set <= snd kept)%Q
            /\ (m_readName set = pos \/ m_readName set = neg)
            /\ In (m_refName set) referenceNames
            /\ m_maxScore set
               = commonKmerMaxScore ext (m_readName set) (m_refName set)
                   readLength (getLength kmerPositions (m_refName set))
                   (COMMON_KMER_BAND_SIZE cfg) slope kmerPositions)
         (fst kept)
  /\ (length (fst kept) <= 2 * length referenceNames)%nat
  /\ (0 <= snd kept)%Q
  /\ (snd kept = 0%Q
      \/ exists set, In set (fst kept) /\ snd kept = m_maxScore set).
Proof.
  destruct (candidatesLoop_collected cfg ext referenceNames pos neg
              readLength slope kmerPositions referenceNames ([], 0%Q))
    as [(Hall & Hnn & Hmax) Hlen]; [auto | |].
  - split; [constructor|]. split; [apply Qle_refl | now left].
  - cbn in Hlen. repeat split; assumption.
Qed.

(** Both strands of the sample read against the sample reference. *)
Example sample_candidates :
  candidatesLoop sampleSettings (sampleCollaborators 2 [] [] 5) ["ref"]
                 "read+" "read-" 200 1 sampleIndex ([], 0%Q)
  = ([mkCommonKmerSet "read+" "ref" 10], 10%Q).
Proof. reflexivity. Qed.

Lemma insertByMaxScore_perm x l : Permutation (insertByMaxScore x l) (x :: l).
Proof.
  induction l as [|y l IH]; cbn; [reflexivity|].
  destruct (Qle_bool _ _); [reflexivity|].
  rewrite IH. apply perm_swap.
Qed.

Lemma insertByMaxScore_sorted x l :
  StronglySorted (fun a b => (m_maxScore b <= m_maxScore a)%Q) l ->
  StronglySorted (fun a b => (m_maxScore b <= m_maxScore a)%Q)
                 (insertByMaxScore x l).
Proof.
  induction 1 as [|y l Hl IH Hy]; cbn; [repeat constructor|].
  destruct (Qle_bool (m_maxScore y) (m_maxScore x)) eqn:Hle.
  - apply Qle_bool_iff in Hle.
    constructor; [now constructor|].
    constructor; [exact Hle|].
    eapply Forall_impl; [exact Hy|]. cbn. intros z Hz.
    eapply Qle_trans; eauto.
  - assert (Hxy : (m_maxScore x <= m_maxScore y)%Q).
    { apply Qlt_le_weak, Qnot_le_lt. intros Hc.
      apply Qle_bool_iff in Hc. congruence. }
    constructor; [exact IH|].
    rewrite insertByMaxScore_perm. now constructor.
Qed.

(** X12.  The driver gets the kept candidates, each of them once, in
    order of score from the highest down. *)
Theorem candidates_sorted_by_score l :
  Permutation (sortByMaxScore l) l
  /\ StronglySorted (fun a b => (m_maxScore b <= m_maxScore a)%Q)
                    (sortByMaxScore l).
Proof.
  unfold sortByMaxScore. induction l as [|x l [IHp IHs]]; cbn.
  - split; constructor.
  - split.
    + rewrite insertByMaxScore_perm. now constructor.
    + now apply insertByMaxScore_sorted.
Qed.

Example sample_sort :
  map m_maxScore
      (sortByMaxScore [mkCommonKmerSet "a+" "r" 3; mkCommonKmerSet "a-" "r" 8;
                       mkCommonKmerSet "a+" "q" 5; mkCommonKmerSet "a-" "q" 8])
  = [8%Q; 8%Q; 5%Q; 3%Q].
Proof. reflexivity. Qed.

(** The loop returns what the attempts leave retained. *)
Lemma refinementLoop_result cfg ext fuel readSeq readLength refSeq refLen
      line verbosity scoring :
  forall bandSize best bestScore output result output' attempts,
    refinementLoop cfg ext fuel readSeq readLength refSeq refLen line
                   verbosity scoring bandSize best bestScore output
    = Some (result, output', attempts) ->
    result = fst (retained (best, bestScore) attempts).
Proof.
  induction fuel as [|fuel IH]; intros * H; [discriminate|].
  cbn [refinementLoop] in H.
  destruct (oneBand_attempt ext readSeq readLength refSeq refLen line
              verbosity scoring bandSize output) as [out1 Hone].
  rewrite Hone in H. clear Hone.
  set (prim := bandedChainAlignment ext readSeq refSeq line scoring _) in *.
  set (att := mkAttempt bandSize _ prim) in *.
  assert (Hnext : forall kept,
            kept = retain (best, bestScore) att ->
            (if bandSize * 2 >? MAX_BAND_SIZE cfg
             then Some (fst kept, out1, [att])
             else match refinementLoop cfg ext fuel readSeq readLength
                          refSeq refLen line verbosity scoring
                          (bandSize * 2) (fst kept) (snd kept) out1 with
                  | Some (r, o, l) => Some (r, o, att :: l)
                  | None => None
                  end)
            = Some (result, output', attempts) ->
            result = fst (retained (best, bestScore) attempts)).
  { intros kept Hkept Hb.
    destruct (bandSize * 2 >? MAX_BAND_SIZE cfg).
    - injection Hb as <- <- <-. cbn. now rewrite Hkept.
    - destruct (refinementLoop cfg ext fuel readSeq readLength refSeq refLen
                  line verbosity scoring (bandSize * 2) (fst kept) (snd kept)
                  out1)
        as [[[r o] l]|] eqn:Hrec; [|discriminate].
      injection Hb as <- <- <-.
      rewrite (IH _ _ _ _ _ _ _ Hrec), <- surjective_pairing, Hkept.
      reflexivity. }
  unfold retain in Hnext. cbn [outcome att snd] in Hnext.
  destruct prim as [found|].
  - destruct (Qle_bool (m_scaledScore found) bestScore) eqn:Hle.
    + injection H as <- <- <-. cbn. unfold retain. cbn. now rewrite Hle.
    + apply (Hnext (Some found, m_scaledScore found)); [reflexivity|].
      exact H.
  - apply (Hnext (best, bestScore)); [reflexivity | exact H].
Qed.

Lemma oneLine_result_above_DBL_MIN cfg ext readSeq refSeq line verbosity
      output scoring found output' attempts :
  semiGlobalAlignmentOneLine cfg ext readSeq refSeq line verbosity output
                             scoring
  = Returns (Some found, output', attempts) ->
  (DBL_MIN < m_scaledScore found)%Q.
Proof.
  unfold semiGlobalAlignmentOneLine.
  destruct (substr _ _ _) as [trimmed|]; [|discriminate].
  destruct (refinementLoop _ _ _ _ _ _ _ _ _ _ _ _ _ _)
    as [[[r o] l]|] eqn:Hloop; [|discriminate].
  intros H. injection H as -> <- <-.
  apply refinementLoop_result in Hloop. symmetry in Hloop.
  destruct (retained_origin _ _ _ _ Hloop) as [?|(k & a & _ & _ & Hlt)];
    [discriminate | exact Hlt].
Qed.

Lemma linesLoop_above_DBL_MIN cfg ext n : forall j i readSeq refSeq
    minPointCount minAlignmentLength verbosity scoringScheme alignmentLines
    alignments output found output' events,
  Forall (fun a => (DBL_MIN < m_scaledScore a)%Q) alignments ->
  linesLoop cfg ext n j i readSeq refSeq minPointCount minAlignmentLength
            verbosity scoringScheme alignmentLines alignments output
  = Returns (found, output', events) ->
  Forall (fun a => (DBL_MIN < m_scaledScore a)%Q) found.
Proof.
  induction n as [|n IH]; intros * Hin H; cbn in H.
  - now injection H as <- <- <-.
  - destruct (alignmentLines !! i) as [line|]; [|discriminate].
    destruct (buildSeedChain ext line minPointCount minAlignmentLength)
      as [[] line'].
    + destruct (semiGlobalAlignmentOneLine _ _ _ _ _ _ _ _)
        as [[[alignment out1] attempts]| | |] eqn:Hone; cbn in H;
        try discriminate.
      apply bind_returns_inv in H as ([[als out2] evs] & Hrec & H).
      injection H as <- <- <-.
      eapply IH; [|exact Hrec].
      destruct alignment as [a|]; [|exact Hin].
      apply Forall_app. split; [exact Hin|].
      constructor; [|constructor].
      eapply oneLine_result_above_DBL_MIN; eauto.
    + apply bind_returns_inv in H as ([[als out2] evs] & Hrec & H).
      injection H as <- <- <-. eauto.
Qed.

Lemma setsLoop_above_DBL_MIN cfg ext rest : forall i
    (kmerPositions : KmerPositions) verbosity lowScoreThreshold
    highScoreThreshold mergeDistance minAlignmentLength minPointCount
    scoringScheme alignments output found output' events,
  Forall (fun a => (DBL_MIN < m_scaledScore a)%Q) alignments ->
  setsLoop cfg ext rest i kmerPositions verbosity lowScoreThreshold
           highScoreThreshold mergeDistance minAlignmentLength minPointCount
           scoringScheme alignments output
  = Returns (found, output', events) ->
  Forall (fun a => (DBL_MIN < m_scaledScore a)%Q) found.
Proof.
  induction rest as [|commonKmerSet rest IH]; intros * Hin H; cbn in H.
  - now injection H as <- <- <-.
  - destruct (Qltb _ _).
    + apply bind_returns_inv in H as ([[als out] evs] & Hrec & H).
      injection H as <- <- <-. eauto.
    + destruct (getSequence _ (m_readName _)) as [readSeq|]; [|discriminate].
      destruct (getSequence _ (m_refName _)) as [refSeq|]; [|discriminate].
      destruct (findAlignmentLines _ _ _ _ _ _ _ _) as [lines printed].
      destruct (length lines =? 0)%nat.
      * apply bind_returns_inv in H as ([[als out] evs] & Hrec & H).
        injection H as <- <- <-. eauto.
      * apply bind_returns_inv in H as ([[als1 out1] evs1] & Hlines & H).
        apply bind_returns_inv in H as ([[als out] evs] & Hrec & H).
        injection H as <- <- <-.
        eapply IH; [|exact Hrec].
        eapply linesLoop_above_DBL_MIN; eauto.
Qed.

(** X13.  The per-level driver never hands back an alignment whose scaled
    score is [DBL_MIN] or less; in particular none that scores zero or
    below. *)
Theorem driver_alignments_score_above_DBL_MIN
        cfg ext commonKmerSets (kmerPositions : KmerPositions) verbosity
        output matchScore mismatchScore gapOpenScore gapExtensionScore
        sensitivityLevel maxScoreAllSets found output' events :
  semiGlobalAlignmentAllRefsOneLevel cfg ext commonKmerSets kmerPositions
    verbosity output matchScore mismatchScore gapOpenScore gapExtensionScore
    sensitivityLevel maxScoreAllSets
  = Returns (found, output', events) ->
  Forall (fun alignment =>
            (DBL_MIN < m_scaledScore alignment)%Q
            /\ (0 < m_scaledScore alignment)%Q) found.
Proof.
  unfold semiGlobalAlignmentAllRefsOneLevel.
  destruct (levelConstants cfg sensitivityLevel)
    as [[[[low high] merge] len] pts].
  intros H. apply bind_returns_inv in H as ([[als out] evs] & Hsets & H).
  injection H as <- <- <-.
  apply setsLoop_above_DBL_MIN in Hsets; [|constructor].
  eapply Forall_impl; [exact Hsets|]. cbn. intros a Ha.
  split; [exact Ha|]. eapply Qlt_trans; [apply DBL_MIN_positive | exact Ha].
Qed.

Lemma driver_alignments_score_above_DBL_MIN_witness :
  exists found output' events,
    semiGlobalAlignmentAllRefsOneLevel
      sampleSettings (sampleCollaborators 0 [lineA] [] 5)
      [mkCommonKmerSet "read+" "ref" 10]
      (<["read+" := sampleRead]> sampleIndex) 0 "" 1 (-1) (-2) (-1) 1 10
    = Returns (found, output', events)
    /\ found <> []
    /\ Forall (fun alignment =>
                 (DBL_MIN < m_scaledScore alignment)%Q
                 /\ (0 < m_scaledScore alignment)%Q) found.
Proof.
  eexists _, _, _.
  assert (H : forall x,
             x = semiGlobalAlignmentAllRefsOneLevel
                   sampleSettings (sampleCollaborators 0 [lineA] [] 5)
                   [mkCommonKmerSet "read+" "ref" 10]
                   (<["read+" := sampleRead]> sampleIndex) 0 "" 1 (-1) (-2)
                   (-1) 1 10 ->
             forall found output' events,
               x = Returns (found, output', events) ->
               found <> [] ->
               semiGlobalAlignmentAllRefsOneLevel
                 sampleSettings (sampleCollaborators 0 [lineA] [] 5)
                 [mkCommonKmerSet "read+" "ref" 10]
                 (<["read+" := sampleRead]> sampleIndex) 0 "" 1 (-1) (-2)
                 (-1) 1 10
               = Returns (found, output', events)
               /\ found <> []
               /\ Forall (fun alignment =>
                            (DBL_MIN < m_scaledScore alignment)%Q
                            /\ (0 < m_scaledScore alignment)%Q) found).
  { intros x -> found output' events Hrun Hne.
    split; [exact Hrun|]. split; [exact Hne|].
    exact (driver_alignments_score_above_DBL_MIN
             _ _ _ _ _ _ _ _ _ _ _ _ _ _ _ Hrun). }
  eapply (H _ eq_refl); [vm_compute; reflexivity | intros Hc; discriminate Hc].
Defined.

(** The inner loop records seed chain builds and band attempts only. *)
Lemma linesLoop_finds_no_lines cfg ext n : forall j i readSeq refSeq
    minPointCount minAlignmentLength verbosity scoringScheme alignmentLines
    alignments output found output' events,
  linesLoop cfg ext n j i readSeq refSeq minPointCount minAlignmentLength
            verbosity scoringScheme alignmentLines alignments output
  = Returns (found, output', events) ->
  forall i' set low high merge lines,
    ~ In (LinesFound i' set low high merge lines) events.
Proof.
  induction n as [|n IH]; intros * H; cbn in H.
  - injection H as <- <- <-. intros * [].
  - destruct (alignmentLines !! i) as [line|]; [|discriminate].
    destruct (buildSeedChain ext line minPointCount minAlignmentLength)
      as [[] line'].
    + destruct (semiGlobalAlignmentOneLine _ _ _ _ _ _ _ _)
        as [[[alignment out1] attempts]| | |]; cbn in H; try discriminate.
      apply bind_returns_inv in H as ([[als out2] evs] & Hrec & H).
      injection H as <- <- <-.
      intros * [Hc|Hc]; [discriminate|].
      apply in_app_or in Hc as [Hc|Hc]; [|eapply IH; eauto].
      apply in_map_iff in Hc as (? & ? & _). discriminate.
    + apply bind_returns_inv in H as ([[als out2] evs] & Hrec & H).
      injection H as <- <- <-.
      intros * [Hc|Hc]; [discriminate | eapply IH; eauto].
Qed.

Lemma setsLoop_lines cfg ext rest : forall i0
    (kmerPositions : KmerPositions) verbosity lowScoreThreshold
    highScoreThreshold mergeDistance minAlignmentLength minPointCount
    scoringScheme alignments output found output' events,
  setsLoop cfg ext rest i0 kmerPositions verbosity lowScoreThreshold
           highScoreThreshold mergeDistance minAlignmentLength minPointCount
           scoringScheme alignments output
  = Returns (found, output', events) ->
  forall i set low high merge lines,
    In (LinesFound i set low high merge lines) events ->
    (i0 <= i)%nat
    /\ rest !! (i - i0)%nat = Some set
    /\ (highScoreThreshold <= m_maxScore set)%Q
    /\ low = lowScoreThreshold
    /\ high = highScoreThreshold
    /\ merge = mergeDistance
    /\ exists readSeq refSeq,
         getSequence kmerPositions (m_readName set) = Some readSeq
         /\ getSequence kmerPositions (m_refName set) = Some refSeq
         /\ lines = fst (findAlignmentLines ext set
                           (Z.of_nat (length readSeq))
                           (Z.of_nat (length refSeq)) verbosity
                           lowScoreThreshold highScoreThreshold
                           mergeDistance).
Proof.
  induction rest as [|commonKmerSet rest IH]; intros * H; cbn in H.
  - injection H as <- <- <-. intros * [].
  - assert (Hlater : forall found0 output0 events0,
              setsLoop cfg ext rest (S i0) kmerPositions verbosity
                       lowScoreThreshold highScoreThreshold mergeDistance
                       minAlignmentLength minPointCount scoringScheme
                       found0 output0
              = Returns (found, output', events0) ->
              forall i set low high merge lines,
                In (LinesFound i set low high merge lines) events0 ->
                (i0 <= i)%nat
                /\ (commonKmerSet :: rest) !! (i - i0)%nat = Some set
                /\ (highScoreThreshold <= m_maxScore set)%Q
                /\ low = lowScoreThreshold
                /\ high = highScoreThreshold
                /\ merge = mergeDistance
                /\ exists readSeq refSeq,
                     getSequence kmerPositions (m_readName set)
                     = Some readSeq
                     /\ getSequence kmerPositions (m_refName set)
                        = Some refSeq
                     /\ lines = fst (findAlignmentLines ext set
                                       (Z.of_nat (length readSeq))
                                       (Z.of_nat (length refSeq)) verbosity
                                       lowScoreThreshold highScoreThreshold
                                       mergeDistance)).
    { intros found0 output0 events0 Hrec i set low high merge lines Hin.
      destruct (IH _ _ _ _ _ _ _ _ _ _ _ _ _ _ Hrec _ _ _ _ _ _ Hin)
        as (Hle & Hlook & Hrest).
      split; [lia|]. split; [|exact Hrest].
      replace (i - i0)%nat with (S (i - S i0)) by lia. exact Hlook. }
    destruct (Qltb (m_maxScore commonKmerSet) highScoreThreshold) eqn:Hhigh.
    + apply bind_returns_inv in H as ([[als out] evs] & Hrec & H).
      injection H as <- <- <-. cbn. eauto.
    + apply Qltb_false in Hhigh.
      destruct (getSequence _ (m_readName _)) as [readSeq|] eqn:Hread;
        [|discriminate].
      destruct (getSequence _ (m_refName _)) as [refSeq|] eqn:Href;
        [|discriminate].
      destruct (findAlignmentLines _ _ _ _ _ _ _ _) as [lines0 printed]
        eqn:Hfind.
      assert (Hhere : forall i set low high merge lines,
                LinesFound i0 commonKmerSet lowScoreThreshold
                           highScoreThreshold mergeDistance lines0
                = LinesFound i set low high merge lines ->
                (i0 <= i)%nat
                /\ (commonKmerSet :: rest) !! (i - i0)%nat = Some set
                /\ (highScoreThreshold <= m_maxScore set)%Q
                /\ low = lowScoreThreshold
                /\ high = highScoreThreshold
                /\ merge = mergeDistance
                /\ exists readSeq refSeq,
                     getSequence kmerPositions (m_readName set)
                     = Some readSeq
                     /\ getSequence kmerPositions (m_refName set)
                        = Some refSeq
                     /\ lines = fst (findAlignmentLines ext set
                                       (Z.of_nat (length readSeq))
                                       (Z.of_nat (length refSeq)) verbosity
                                       lowScoreThreshold highScoreThreshold
                                       mergeDistance)).
      { intros i set low high merge lines Heq.
        injection Heq as <- <- <- <- <- <-.
        split; [lia|]. rewrite Nat.sub_diag.
        repeat split; try reflexivity; try assumption.
        exists readSeq, refSeq. rewrite Hfind. auto. }
      destruct (length lines0 =? 0)%nat.
      * apply bind_returns_inv in H as ([[als out] evs] & Hrec & H).
        injection H as <- <- <-.
        intros i set low high merge lines [Heq|Hin]; [|eauto].
        now apply Hhere.
      * apply bind_returns_inv in H as ([[als1 out1] evs1] & Hlines & H).
        apply bind_returns_inv in H as ([[als out] evs] & Hrec & H).
        injection H as <- <- <-.
        intros i set low high merge lines [Heq|Hin].
        -- now apply Hhere.
        -- apply in_app_or in Hin as [Hin|Hin]; [|eauto].
           exfalso. eapply linesLoop_finds_no_lines; eauto.
Qed.

(** X14.  What the line finder is asked in a run of the per-level
    driver: only about candidates of the list, each at its own index,
    whose score reaches the absolute high threshold of the level, with
    the low and high thresholds of the level scaled by the maximum score
    and the merge distance of the level, and with the lengths of the two
    stored sequences. *)
Theorem driver_asks_line_finder_above_threshold
        cfg ext commonKmerSets (kmerPositions : KmerPositions) verbosity
        output matchScore mismatchScore gapOpenScore gapExtensionScore
        sensitivityLevel maxScoreAllSets found output' events
        i set low high merge lines :
  semiGlobalAlignmentAllRefsOneLevel cfg ext commonKmerSets kmerPositions
    verbosity output matchScore mismatchScore gapOpenScore gapExtensionScore
    sensitivityLevel maxScoreAllSets
  = Returns (found, output', events) ->
  In (LinesFound i set low high merge lines) events ->
  commonKmerSets !! i = Some set
  /\ (high <= m_maxScore set)%Q
  /\ (let '(lowFraction, highFraction, mergeDistance, _, _) :=
        levelConstants cfg sensitivityLevel in
      low = (lowFraction * maxScoreAllSets)%Q
      /\ high = (highFraction * maxScoreAllSets)%Q
      /\ merge = mergeDistance)
  /\ exists readSeq refSeq,
       getSequence kmerPositions (m_readName set) = Some readSeq
       /\ getSequence kmerPositions (m_refName set) = Some refSeq
       /\ lines = fst (findAlignmentLines ext set
                         (Z.of_nat (length readSeq))
                         (Z.of_nat (length refSeq)) verbosity low high
                         merge).
Proof.
  unfold semiGlobalAlignmentAllRefsOneLevel.
  destruct (levelConstants cfg sensitivityLevel)
    as [[[[lowF highF] mergeD] len] pts].
  intros H Hin.
  apply bind_returns_inv in H as ([[als out] evs] & Hsets & H).
  injection H as <- <- <-.
  destruct Hin as [Hc|Hin]; [discriminate|].
  destruct (setsLoop_lines _ _ _ _ _ _ _ _ _ _ _ _ _ _ _ _ _ Hsets
              _ _ _ _ _ _ Hin)
    as (_ & Hlook & Hhigh & -> & -> & -> & Hseqs).
  rewrite Nat.sub_0_r in Hlook. repeat split; assumption.
Qed.

Lemma driver_asks_line_finder_above_threshold_witness :
  exists found output' events i set low high merge lines,
    semiGlobalAlignmentAllRefsOneLevel
      sampleSettings (sampleCollaborators 0 [lineA] [] 5)
      [mkCommonKmerSet "read+" "ref" 10]
      (<["read+" := sampleRead]> sampleIndex) 0 "" 1 (-1) (-2) (-1) 1 10
    = Returns (found, output', events)
    /\ In (LinesFound i set low high merge lines) events
    /\ [mkCommonKmerSet "read+" "ref" 10] !! i = Some set
    /\ (high <= m_maxScore set)%Q.
Proof.
  eexists _, _, _, _, _, _, _, _, _.
  assert (H : forall x,
             x = semiGlobalAlignmentAllRefsOneLevel
                   sampleSettings (sampleCollaborators 0 [lineA] [] 5)
                   [mkCommonKmerSet "read+" "ref" 10]
                   (<["read+" := sampleRead]> sampleIndex) 0 "" 1 (-1) (-2)
                   (-1) 1 10 ->
             forall found output' events i set low high merge lines,
               x = Returns (found, output', events) ->
               In (LinesFound i set low high merge lines) events ->
               semiGlobalAlignmentAllRefsOneLevel
                 sampleSettings (sampleCollaborators 0 [lineA] [] 5)
                 [mkCommonKmerSet "read+" "ref" 10]
                 (<["read+" := sampleRead]> sampleIndex) 0 "" 1 (-1) (-2)
                 (-1) 1 10
               = Returns (found, output', events)
               /\ In (LinesFound i set low high merge lines) events
               /\ [mkCommonKmerSet "read+" "ref" 10] !! i = Some set
               /\ (high <= m_maxScore set)%Q).
  { intros x -> found output' events i set low high merge lines Hrun Hin.
    split; [exact Hrun|]. split; [exact Hin|].
    destruct (driver_asks_line_finder_above_threshold
                _ _ _ _ _ _ _ _ _ _ _ _ _ _ _ _ _ _ _ _ _ Hrun Hin)
      as (Hlook & Hhigh & _).
    split; assumption. }
  eapply (H _ eq_refl); [vm_compute; reflexivity | right; left; reflexivity].
Defined.

Lemma names_are_entries (kmerPositions : KmerPositions) name :
  In name (getAllNames kmerPositions) -> is_Some (kmerPositions !! name).
Proof.
  unfold getAllNames. intros H. apply list_elem_of_In in H.
  apply list_elem_of_fmap in H as ([k v] & -> & H).
  apply elem_of_map_to_list in H. cbn. eauto.
Qed.

(** X15.  The candidate floor, for the entry point as a whole: whenever
    the line finder is asked about a candidate, the candidate scores at
    least [MINIMUM_MAX_SCORE], pairs the forward or the reverse strand of
    the query with a reference that was in the index when the call
    began, and its score reaches the high threshold of the run. *)
Theorem line_finder_sees_candidates_above_floor
        cfg ext readName readSeq verbosity expectedSlope
        (kmerPositions : KmerPositions) matchScore mismatchScore
        gapOpenScore gapExtensionScore lowScoreThreshold buffer
        (index : KmerPositions) events i set low high merge lines :
  semiGlobalAlignmentAllRefs cfg ext readName readSeq verbosity
    expectedSlope kmerPositions matchScore mismatchScore gapOpenScore
    gapExtensionScore lowScoreThreshold
  = Returns (buffer, index, events) ->
  In (LinesFound i set low high merge lines) events ->
  (MINIMUM_MAX_SCORE cfg <= m_maxScore set)%Q
  /\ (high <= m_maxScore set)%Q
  /\ (m_readName set = readName +:+ "+"
      \/ m_readName set = readName +:+ "-")
  /\ is_Some (kmerPositions !! m_refName set).
Proof.
  unfold semiGlobalAlignmentAllRefs.
  pose proof (candidates_respect_floor cfg ext (getAllNames kmerPositions)
                (readName +:+ "+") (readName +:+ "-")
                (Z.of_nat (length readSeq)) expectedSlope
                (addPositions (readName +:+ "-")
                   (getReverseComplement readSeq)
                   (addPositions (readName +:+ "+") readSeq kmerPositions)))
    as Hkept.
  cbv zeta in Hkept.
  destruct (candidatesLoop _ _ _ _ _ _ _ _ _) as [sets top].
  destruct Hkept as (Hall & _). cbn [fst snd] in Hall.
  assert (Hrun : forall output found output' events0,
            semiGlobalAlignmentAllRefsOneLevel cfg ext (sortByMaxScore sets)
              (addPositions (readName +:+ "-")
                 (getReverseComplement readSeq)
                 (addPositions (readName +:+ "+") readSeq kmerPositions))
              verbosity output matchScore mismatchScore gapOpenScore
              gapExtensionScore 1 top
            = Returns (found, output', events0) ->
            In (LinesFound i set low high merge lines) events0 ->
            (MINIMUM_MAX_SCORE cfg <= m_maxScore set)%Q
            /\ (high <= m_maxScore set)%Q
            /\ (m_readName set = readName +:+ "+"
                \/ m_readName set = readName +:+ "-")
            /\ is_Some (kmerPositions !! m_refName set)).
  { intros output found output' events0 Hone Hin.
    destruct (driver_asks_line_finder_above_threshold
                _ _ _ _ _ _ _ _ _ _ _ _ _ _ _ _ _ _ _ _ _ Hone Hin)
      as (Hlook & Hhigh & _).
    assert (Hset : In set sets).
    { apply (Permutation_in _ (proj1 (candidates_sorted_by_score sets))).
      apply list_elem_of_In, list_elem_of_lookup. eauto. }
    apply list_elem_of_In in Hset.
    pose proof (proj1 (Forall_forall _ _) Hall set Hset)
      as (Hfloor & _ & Hname & Hin' & _).
    repeat split; try assumption.
    now apply names_are_entries. }
  intros H Hin.
  apply bind_returns_inv in H as ([[als1 out1] ev1] & Hrun1 & H).
  apply bind_returns_inv in H as ([[als out] ev] & Hmore & H).
  injection H as <- <- <-.
  apply in_app_or in Hin as [Hin|Hin]; [eauto|].
  destruct (needsMoreSensitiveAlignment _ _ _).
  - apply bind_returns_inv in Hmore as ([[als2 out2] ev2] & Hrun2 & Hmore).
    destruct (readHasUnalignedParts _ _).
    + apply bind_returns_inv in Hmore as ([[als3 out3] ev3] & Hrun3 & Hmore).
      injection Hmore as <- <- <-.
      apply in_app_or in Hin as [Hin|Hin]; eauto.
    + injection Hmore as <- <- <-. eauto.
  - injection Hmore as <- <- <-. destruct Hin.
Qed.

Lemma line_finder_sees_candidates_above_floor_witness :
  exists buffer (index : KmerPositions) events i set low high merge lines,
    semiGlobalAlignmentAllRefs
      sampleSettings (sampleCollaborators 0 [lineA] [] 5)
      "read" sampleRead 0 1 sampleIndex 1 (-1) (-2) (-1) 80
    = Returns (buffer, index, events)
    /\ In (LinesFound i set low high merge lines) events
    /\ (MINIMUM_MAX_SCORE sampleSettings <= m_maxScore set)%Q
    /\ (high <= m_maxScore set)%Q
    /\ (m_readName set = "read" +:+ "+" \/ m_readName set = "read" +:+ "-")
    /\ is_Some (sampleIndex !! m_refName set).
Proof.
  eexists _, _, _, _, _, _, _, _, _.
  assert (H : forall x,
             x = semiGlobalAlignmentAllRefs
                   sampleSettings (sampleCollaborators 0 [lineA] [] 5)
                   "read" sampleRead 0 1 sampleIndex 1 (-1) (-2) (-1) 80 ->
             forall buffer (index : KmerPositions) events i set low high
                    merge lines,
               x = Returns (buffer, index, events) ->
               In (LinesFound i set low high merge lines) events ->
               semiGlobalAlignmentAllRefs
                 sampleSettings (sampleCollaborators 0 [lineA] [] 5)
                 "read" sampleRead 0 1 sampleIndex 1 (-1) (-2) (-1) 80
               = Returns (buffer, index, events)
               /\ In (LinesFound i set low high merge lines) events
               /\ (MINIMUM_MAX_SCORE sampleSettings <= m_maxScore set)%Q
               /\ (high <= m_maxScore set)%Q
               /\ (m_readName set = "read" +:+ "+"
                   \/ m_readName set = "read" +:+ "-")
               /\ is_Some (sampleIndex !! m_refName set)).
  { intros x -> buffer index events i set low high merge lines Hrun Hin.
    split; [exact Hrun|]. split; [exact Hin|].
    exact (line_finder_sees_candidates_above_floor
             _ _ _ _ _ _ _ _ _ _ _ _ _ _ _ _ _ _ _ _ _ Hrun Hin). }
  eapply (H _ eq_refl); [vm_compute; reflexivity | right; left; reflexivity].
Defined.

(** X16.  The entry point leaves alone every entry of the index whose
    name is not the name of the query or of one of its two strands. *)
Theorem other_entries_untouched
        cfg ext readName readSeq verbosity expectedSlope
        (kmerPositions : KmerPositions) matchScore mismatchScore
        gapOpenScore gapExtensionScore lowScoreThreshold buffer
        (index : KmerPositions) events name :
  semiGlobalAlignmentAllRefs cfg ext readName readSeq verbosity
    expectedSlope kmerPositions matchScore mismatchScore gapOpenScore
    gapExtensionScore lowScoreThreshold
  = Returns (buffer, index, events) ->
  name <> readName ->
  name <> readName +:+ "+" ->
  name <> readName +:+ "-" ->
  index !! name = kmerPositions !! name.
Proof.
  unfold semiGlobalAlignmentAllRefs.
  destruct (candidatesLoop _ _ _ _ _ _ _ _ _) as [sets top].
  intros H Hbare Hpos Hneg.
  apply bind_returns_inv in H as ([[als1 out1] ev1] & _ & H).
  apply bind_returns_inv in H as ([[als out] ev] & _ & H).
  injection H as <- <- <-.
  unfold deletePositions, addPositions.
  rewrite lookup_delete_ne by congruence.
  rewrite !lookup_insert_ne by congruence. reflexivity.
Qed.

Lemma other_entries_untouched_witness :
  exists buffer (index : KmerPositions) events,
    semiGlobalAlignmentAllRefs
      sampleSettings (sampleCollaborators 0 [lineA] [] 5)
      "read" sampleRead 0 1 sampleIndex 1 (-1) (-2) (-1) 80
    = Returns (buffer, index, events)
    /\ "ref" <> "read" /\ "ref" <> "read" +:+ "+" /\ "ref" <> "read" +:+ "-"
    /\ index !! "ref" = sampleIndex !! "ref".
Proof.
  eexists _, _, _.
  assert (H : forall x,
             x = semiGlobalAlignmentAllRefs
                   sampleSettings (sampleCollaborators 0 [lineA] [] 5)
                   "read" sampleRead 0 1 sampleIndex 1 (-1) (-2) (-1) 80 ->
             forall buffer (index : KmerPositions) events,
               x = Returns (buffer, index, events) ->
               semiGlobalAlignmentAllRefs
                 sampleSettings (sampleCollaborators 0 [lineA] [] 5)
                 "read" sampleRead 0 1 sampleIndex 1 (-1) (-2) (-1) 80
               = Returns (buffer, index, events)
               /\ "ref" <> "read" /\ "ref" <> "read" +:+ "+"
               /\ "ref" <> "read" +:+ "-"
               /\ index !! "ref" = sampleIndex !! "ref").
  { intros x -> buffer index events Hrun.
    assert (H1 : "ref" <> "read") by discriminate.
    assert (H2 : "ref" <> "read" +:+ "+") by discriminate.
    assert (H3 : "ref" <> "read" +:+ "-") by discriminate.
    repeat split; try assumption.
    exact (other_entries_untouched _ _ _ _ _ _ _ _ _ _ _ _ _ _ _ _
             Hrun H1 H2 H3). }
  eapply (H _ eq_refl). vm_compute. reflexivity.
Defined.

(** X17.  An index without references: the entry point returns the empty
    buffer, whatever the query and whatever the two coverage checks
    say. *)
Theorem no_references_empty_buffer
        cfg ext readName readSeq verbosity expectedSlope matchScore
        mismatchScore gapOpenScore gapExtensionScore lowScoreThreshold :
  exists (index : KmerPositions) events,
    semiGlobalAlignmentAllRefs cfg ext readName readSeq verbosity
      expectedSlope ∅ matchScore mismatchScore gapOpenScore
      gapExtensionScore lowScoreThreshold
    = Returns ("", index, events)
    /\ linesFound events = []
    /\ chainsTried events = [].
Proof.
  unfold semiGlobalAlignmentAllRefs, getAllNames.
  rewrite map_to_list_empty. cbn [fmap list_fmap candidatesLoop].
  unfold sortByMaxScore, semiGlobalAlignmentAllRefsOneLevel.
  cbn [foldr].
  destruct (levelConstants cfg 1) as [[[[low high] merge] len] pts].
  cbn.
  destruct (needsMoreSensitiveAlignment ext [] lowScoreThreshold); cbn;
    [destruct (readHasUnalignedParts ext []); cbn|];
    eexists _, _; repeat split.
Qed.



End DriverMore.
